(** * ToolsLibraryHelper: EnumerateUSBDevices

    A shallow embedding of [src/ToolsLibraryHelper/ToolsLibraryHelper.cpp].

    The function talks to three collaborators: the SetupAPI device
    database, the COM task allocator and the file system.  They are
    gathered in a [World]: a script that fixes the answer to every call
    the function can make.  The function itself is written in a small
    state-and-exception monad whose state holds the heap, the locals
    that the source mutates ([pResult], [hr], [cDevices], [err]), the
    thread's last-error value and a trace of every call made.

    What is taken for granted about the platform:
    - a device information set is a snapshot: the two passes see the
      same devices, and it holds fewer than 2^31 members, so that the
      [int] counters of the source do not wrap and are modelled by [nat];
    - the size the sizing query reports is below 2^31 (Construct takes
      it as an [int]): a [DeviceInterface] carries the proof;
    - writing through the null pointer raises an access violation, which
      unwinds through the [__finally] blocks and leaves the function;
    - a store behind the last element of a heap block does not fault: it
      is recorded in [overruns] and the program goes on.

    GetDeviceInstanceId, which EnumerateUSBDevices does not call, is
    modelled on its own, after the sample worlds.  GetUsbDeviceDescriptor,
    which returns a zeroed structure, is left out, as are the
    initialisations of the cursor structures on the stack. *)

From Stdlib Require Import ZArith Lia.
From stdpp Require Import base tactics option list.

Local Open Scope Z_scope.

(** ** Data *)

(** A GUID is a 128-bit value; only equality with the requested class
    and with the all-zero GUID matters here. *)
Definition GUID := Z.
Definition GUID_NULL : GUID := 0.

(** A wide string: its UTF-16 code units, terminator left out. *)
Abbreviation wstring := (list Z).

(** A pointer is null or designates a heap block. *)
Inductive ptr : Type :=
| nullptr
| Ptr (b : nat).

Definition is_null (p : ptr) : bool :=
  match p with nullptr => true | Ptr _ => false end.

(** struct EnumeratedUSBDevice { GUID guidInterface; LPWSTR wszInterfacePath; } *)
Record EnumeratedUSBDevice : Type := mkEnumerated {
  guidInterface : GUID;
  wszInterfacePath : ptr
}.

(** sizeof(EnumeratedUSBDevice) on a 64-bit target: 16 + 8. *)
Definition sizeof_EnumeratedUSBDevice : Z := 24.

(** What memset(.., 0, ..) leaves in a slot. *)
Definition zero_slot : EnumeratedUSBDevice :=
  {| guidInterface := GUID_NULL; wszInterfacePath := nullptr |}.

(** sizeof(SP_DEVICE_INTERFACE_DETAIL_DATA_W.cbSize): a DWORD. *)
Definition sizeof_cbSize : Z := 4.

(** ** The collaborators *)

(** One device interface of the requested class, as the device
    information set holds it: the buffer size the sizing query reports,
    which is a DWORD that fits an [int], and the answer of the filling
    query (a last-error value, or the device path). *)
Record DeviceInterface : Type := mkInterface {
  cbRequired : Z;
  detail : Z + wstring;
  cbRequired_fits : (0 <=? cbRequired) && (cbRequired <? 2 ^ 31) = true
}.

(** A member of the device information set: its interfaces of the
    requested class, in enumeration order. *)
Abbreviation Device := (list DeviceInterface).

(** HDEVINFO: the snapshot SetupDiGetClassDevsW built. *)
Abbreviation HDEVINFO := (list (list DeviceInterface)).

(** The places where the function calls CoTaskMemAlloc.  Each is
    executed at most once per call for given loop indices. *)
Inductive AllocSite : Type :=
| SiteResult
| SiteDetail (iResult iInterface : nat)
| SitePath (iResult iInterface : nat).

Record World : Type := mkWorld {
  (** SetupDiGetClassDevsW: a last-error value or the device set. *)
  ClassDevs : GUID -> Z + HDEVINFO;
  (** whether CoTaskMemAlloc returns a block at a site *)
  AllocOk : AllocSite -> bool;
  (** CreateFile on a path: [None] is a handle, [Some e] is
      INVALID_HANDLE_VALUE with last error [e]. *)
  OpenPath : wstring -> option Z
}.

(** SP_DEVINFO_DATA and SP_DEVICE_INTERFACE_DATA are cursors into the
    device information set. *)
Record SP_DEVINFO_DATA : Type := mkDevInfo { DevInst : nat }.
Record SP_DEVICE_INTERFACE_DATA : Type := mkIfData { ifDevice : nat; ifIndex : nat }.

(** ** Heap, trace and state *)

Inductive Block : Type :=
| BRaw (cb : Z)                               (* as CoTaskMemAlloc returns it *)
| BResult (slots : list EnumeratedUSBDevice)  (* the output array *)
| BDetail (cb : Z) (DevicePath : option wstring)
| BString (s : wstring)
| BFreed.

Inductive Event : Type :=
| EvGetClassDevs (g : GUID) (ok : bool)
| EvEnumDeviceInfo (MemberIndex : nat) (ok : bool)
| EvEnumDeviceInterfaces (iDevice iInterface : nat) (ok : bool)
| EvGetDetailSize (iDevice iInterface : nat)
| EvGetDetail (iDevice iInterface : nat) (ok : bool)
| EvAlloc (site : AllocSite) (cb : Z) (p : ptr)
| EvFree (p : ptr)
| EvZero (p : ptr) (cb : Z)
| EvStoreGuid (i : nat) (g : GUID)
| EvStorePath (i : nat) (p : ptr)
| EvCreateFile (p : ptr) (ok : bool)
| EvCloseHandle
| EvDestroy.

(** A store that landed outside the block it was aimed at. *)
Inductive Overrun : Type :=
| OverrunGuid (b i : nat) (g : GUID)  (* guidInterface of element [i] of block [b] *)
| OverrunPath (b i : nat) (q : ptr)   (* wszInterfacePath of element [i] of block [b] *)
| OverrunCbSize (b : nat).           (* the cbSize field of a too small detail buffer *)

Record State : Type := mkState {
  heap : list Block;
  trace : list Event;          (* newest event first *)
  overruns : list Overrun;
  lastError : Z;
  pResult : ptr;
  hr : Z;
  cDevices : nat;
  err : Z
}.

Definition set_heap (h : list Block) (s : State) : State :=
  mkState h (trace s) (overruns s) (lastError s) (pResult s) (hr s) (cDevices s) (err s).
Definition log (e : Event) (s : State) : State :=
  mkState (heap s) (e :: trace s) (overruns s) (lastError s) (pResult s) (hr s) (cDevices s) (err s).
Definition add_overrun (o : Overrun) (s : State) : State :=
  mkState (heap s) (trace s) (o :: overruns s) (lastError s) (pResult s) (hr s) (cDevices s) (err s).
Definition set_lastError (e : Z) (s : State) : State :=
  mkState (heap s) (trace s) (overruns s) (e mod 2 ^ 32) (pResult s) (hr s) (cDevices s) (err s).
Definition set_pResult (p : ptr) (s : State) : State :=
  mkState (heap s) (trace s) (overruns s) (lastError s) p (hr s) (cDevices s) (err s).
Definition set_hr (v : Z) (s : State) : State :=
  mkState (heap s) (trace s) (overruns s) (lastError s) (pResult s) v (cDevices s) (err s).
Definition set_cDevices (n : nat) (s : State) : State :=
  mkState (heap s) (trace s) (overruns s) (lastError s) (pResult s) (hr s) n (err s).
Definition set_err (v : Z) (s : State) : State :=
  mkState (heap s) (trace s) (overruns s) (lastError s) (pResult s) (hr s) (cDevices s) v.

(** The state on entry: EnumeratedUSBDevice* pResult = nullptr;
    HRESULT hr = S_OK; int cDevices = 0; int err = 0. *)
Definition S_OK : Z := 0.
Definition entry : State := mkState [] [] [] 0 nullptr S_OK 0%nat 0.

(** ** The monad *)

Inductive Res (A : Type) : Type :=
| Ok (a : A) (s : State)
| Raise (s : State)    (* an access violation is unwinding the stack *)
| Stuck.               (* a loop bound ran out *)
Arguments Ok {A} a s.
Arguments Raise {A} s.
Arguments Stuck {A}.

Definition M (A : Type) : Type := State -> Res A.

#[global] Instance M_ret : MRet M := λ A a s, Ok a s.
#[global] Instance M_bind : MBind M := λ A B f m s,
  match m s with
  | Ok a s' => f a s'
  | Raise s' => Raise s'
  | Stuck => Stuck
  end.

Definition modify (f : State -> State) : M unit := λ s, Ok tt (f s).
Definition gets {A} (f : State -> A) : M A := λ s, Ok (f s) s.
Definition raise {A} : M A := λ s, Raise s.
Definition stuck {A} : M A := λ _, Stuck.

(** __try { body } __finally { handler }: the handler runs when the body
    completes and when an exception unwinds through it; in the second
    case the exception goes on unwinding afterwards. *)
Definition try_finally {A} (body : M A) (handler : M unit) : M A := λ s,
  match body s with
  | Ok a s1 =>
      match handler s1 with
      | Ok _ s2 => Ok a s2
      | Raise s2 => Raise s2
      | Stuck => Stuck
      end
  | Raise s1 =>
      match handler s1 with
      | Ok _ s2 => Raise s2
      | Raise s2 => Raise s2
      | Stuck => Stuck
      end
  | Stuck => Stuck
  end.

(** ** Win32 error values *)

(** A 32-bit pattern read as a signed number: (HRESULT)(x), (int)(x). *)
Definition to_int32 (x : Z) : Z :=
  let m := x mod 2 ^ 32 in
  if m <? 2 ^ 31 then m else m - 2 ^ 32.

(** (size_t)(x) on a 64-bit target. *)
Definition to_size_t (x : Z) : Z := x mod 2 ^ 64.

Definition FACILITY_WIN32 : Z := 7.

(** winerror.h:
    (HRESULT)(x) <= 0 ? (HRESULT)(x)
                      : (HRESULT)(((x) & 0x0000FFFF) | (FACILITY_WIN32 << 16) | 0x80000000) *)
Definition HRESULT_FROM_WIN32 (x : Z) : Z :=
  if to_int32 x <=? 0 then to_int32 x
  else to_int32 (Z.lor (Z.lor (Z.land x 0xFFFF) (Z.shiftl FACILITY_WIN32 16)) 0x80000000).

Definition E_OUTOFMEMORY : Z := to_int32 0x8007000E.
Definition ERROR_INVALID_PARAMETER : Z := 87.
Definition ERROR_INSUFFICIENT_BUFFER : Z := 122.
Definition ERROR_NO_MORE_ITEMS : Z := 259.

(** The result of a call: what it returned and the values left in
    *pcDevices and *ppResult; or the exception that left the function. *)
Inductive Outcome : Type :=
| Returned (result : bool) (pcDevices : nat) (ppResult : ptr)
| Unwound
| OutOfFuel.

Section Program.

Variable W : World.

(** ** Collaborator calls *)

Definition GetLastError : M Z := gets lastError.

(** HRESULT HError() { return HRESULT_FROM_WIN32(GetLastError()); } *)
Definition HError : M Z :=
  e ← GetLastError; mret (HRESULT_FROM_WIN32 e).

Definition CoTaskMemAlloc (site : AllocSite) (cb : Z) : M ptr := λ s,
  if AllocOk W site then
    let p := Ptr (length (heap s)) in
    Ok p (log (EvAlloc site cb p) (set_heap (heap s ++ [BRaw cb]) s))
  else
    Ok nullptr (log (EvAlloc site cb nullptr) s).

Definition CoTaskMemFree (p : ptr) : M unit :=
  match p with
  | nullptr => modify (log (EvFree nullptr))
  | Ptr b => modify (λ s, log (EvFree p) (set_heap (<[b := BFreed]> (heap s)) s))
  end.

Definition SetupDiGetClassDevsW (guid : GUID) : M (option HDEVINFO) :=
  match ClassDevs W guid with
  | inr hDevInfo => modify (log (EvGetClassDevs guid true));; mret (Some hDevInfo)
  | inl e => modify (λ s, log (EvGetClassDevs guid false) (set_lastError e s));; mret None
  end.

Definition SetupDiDestroyDeviceInfoList (hDevInfo : HDEVINFO) : M unit :=
  modify (log EvDestroy).

Definition SetupDiEnumDeviceInfo (hDevInfo : HDEVINFO) (MemberIndex : nat)
  : M (option SP_DEVINFO_DATA) :=
  match hDevInfo !! MemberIndex with
  | Some _ =>
      modify (log (EvEnumDeviceInfo MemberIndex true));;
      mret (Some {| DevInst := MemberIndex |})
  | None =>
      modify (λ s, log (EvEnumDeviceInfo MemberIndex false)
                     (set_lastError ERROR_NO_MORE_ITEMS s));;
      mret None
  end.

Definition interfaces_of (hDevInfo : HDEVINFO) (devInfo : SP_DEVINFO_DATA) : Device :=
  default [] (hDevInfo !! DevInst devInfo).

Definition SetupDiEnumDeviceInterfaces (hDevInfo : HDEVINFO) (devInfo : SP_DEVINFO_DATA)
    (MemberIndex : nat) : M (option SP_DEVICE_INTERFACE_DATA) :=
  match interfaces_of hDevInfo devInfo !! MemberIndex with
  | Some _ =>
      modify (log (EvEnumDeviceInterfaces (DevInst devInfo) MemberIndex true));;
      mret (Some {| ifDevice := DevInst devInfo; ifIndex := MemberIndex |})
  | None =>
      modify (λ s, log (EvEnumDeviceInterfaces (DevInst devInfo) MemberIndex false)
                     (set_lastError ERROR_NO_MORE_ITEMS s));;
      mret None
  end.

Definition interface_at (hDevInfo : HDEVINFO) (d : SP_DEVICE_INTERFACE_DATA)
  : option DeviceInterface :=
  hDevInfo !! ifDevice d ≫= λ dev, dev !! ifIndex d.

(** SetupDiGetDeviceInterfaceDetailW(h, &data, nullptr, 0, &cbRequired, nullptr):
    the sizing query; its return value is ignored by the source, what
    it leaves in cbRequired is what the function goes on with. *)
Definition SetupDiGetDeviceInterfaceDetailW_size (hDevInfo : HDEVINFO)
    (d : SP_DEVICE_INTERFACE_DATA) : M Z :=
  modify (λ s, log (EvGetDetailSize (ifDevice d) (ifIndex d))
                 (set_lastError ERROR_INSUFFICIENT_BUFFER s));;
  mret (from_option cbRequired 0 (interface_at hDevInfo d)).

(** SetupDiGetDeviceInterfaceDetailW(h, &data, pDetail, cb, &cb, &devInfoDevice):
    the filling query; on success the path is in the buffer. *)
Definition SetupDiGetDeviceInterfaceDetailW (hDevInfo : HDEVINFO)
    (d : SP_DEVICE_INTERFACE_DATA) (pDetail : ptr) (cb : Z) : M bool :=
  match pDetail with
  | nullptr => raise
  | Ptr b =>
      match detail <$> interface_at hDevInfo d with
      | Some (inr path) =>
          modify (λ s, log (EvGetDetail (ifDevice d) (ifIndex d) true)
                         (set_heap (<[b := BDetail cb (Some path)]> (heap s)) s));;
          mret true
      | Some (inl e) =>
          modify (λ s, log (EvGetDetail (ifDevice d) (ifIndex d) false) (set_lastError e s));;
          mret false
      | None =>
          modify (λ s, log (EvGetDetail (ifDevice d) (ifIndex d) false)
                         (set_lastError ERROR_INVALID_PARAMETER s));;
          mret false
      end
  end.

(** pInterfaceDetail->DevicePath *)
Definition DevicePath_of (pDetail : ptr) : M wstring := λ s,
  match pDetail with
  | nullptr => Raise s
  | Ptr b =>
      match heap s !! b with
      | Some (BDetail _ (Some path)) => Ok path s
      | _ => Raise s
      end
  end.

(** CreateFile(path, GENERIC_WRITE, FILE_SHARE_WRITE, nullptr, OPEN_EXISTING, 0, nullptr):
    [true] for a handle, [false] for INVALID_HANDLE_VALUE. *)
Definition CreateFile (lpFileName : ptr) : M bool := λ s,
  match lpFileName with
  | nullptr => Raise s
  | Ptr b =>
      match heap s !! b with
      | Some (BString path) =>
          match OpenPath W path with
          | None => Ok true (log (EvCreateFile lpFileName true) s)
          | Some e => Ok false (log (EvCreateFile lpFileName false) (set_lastError e s))
          end
      | _ => Raise s
      end
  end.

Definition CloseHandle : M unit := modify (log EvCloseHandle).

(** ** Memory accesses of the source *)

(** Zero(T* pTarget, size_t cb) { memset(pTarget, 0, cb); } at
    T = EnumeratedUSBDevice.  Writing through the null pointer is an
    access violation as soon as one byte is written. *)
Definition Zero (pTarget : ptr) (cb : Z) : M unit := λ s,
  match pTarget with
  | nullptr =>
      if cb =? 0 then Ok tt (log (EvZero nullptr cb) s)
      else Raise (log (EvZero nullptr cb) s)
  | Ptr b =>
      let n := Z.to_nat (cb / sizeof_EnumeratedUSBDevice) in
      Ok tt (log (EvZero pTarget cb)
               (set_heap (<[b := BResult (replicate n zero_slot)]> (heap s)) s))
  end.

(** Construct(SP_DEVICE_INTERFACE_DETAIL_DATA_W& result, int cbAllocated):
    zero (size_t)cbAllocated bytes, then set cbSize.  The buffer is as
    CoTaskMemAlloc returned it; a memset that runs far behind it (a
    negative cbAllocated) ends in an access violation. *)
Definition Construct_detail (p : ptr) (cbAllocated : Z) : M unit := λ s,
  match p with
  | nullptr => Raise s
  | Ptr b =>
      match heap s !! b with
      | Some (BRaw size) =>
          if to_size_t cbAllocated <=? size then
            let s1 := set_heap (<[b := BDetail cbAllocated None]> (heap s)) s in
            Ok tt (if cbAllocated <? sizeof_cbSize
                   then add_overrun (OverrunCbSize b) s1 else s1)
          else Raise s
      | _ => Raise s
      end
  end.

(** pResult[i].guidInterface = g.  A store past the last element of the
    block lands in the heap arena behind it: it is recorded and the
    program goes on. *)
Definition store_guidInterface (p : ptr) (i : nat) (g : GUID) : M unit := λ s,
  match p with
  | nullptr => Raise s
  | Ptr b =>
      match heap s !! b with
      | Some (BResult slots) =>
          match slots !! i with
          | Some d =>
              let d' := {| guidInterface := g; wszInterfacePath := wszInterfacePath d |} in
              Ok tt (log (EvStoreGuid i g)
                       (set_heap (<[b := BResult (<[i := d']> slots)]> (heap s)) s))
          | None => Ok tt (log (EvStoreGuid i g) (add_overrun (OverrunGuid b i g) s))
          end
      | _ => Raise s
      end
  end.

(** pResult[i].wszInterfacePath = q *)
Definition store_wszInterfacePath (p : ptr) (i : nat) (q : ptr) : M unit := λ s,
  match p with
  | nullptr => Raise s
  | Ptr b =>
      match heap s !! b with
      | Some (BResult slots) =>
          match slots !! i with
          | Some d =>
              let d' := {| guidInterface := guidInterface d; wszInterfacePath := q |} in
              Ok tt (log (EvStorePath i q) (set_heap (<[b := BResult (<[i := d']> slots)]> (heap s)) s))
          | None => Ok tt (log (EvStorePath i q) (add_overrun (OverrunPath b i q) s))
          end
      | _ => Raise s
      end
  end.

(** Reading pResult[i].wszInterfacePath back: the source reads the
    element it has just stored to. *)
Definition load_wszInterfacePath (p : ptr) (i : nat) : M ptr := λ s,
  match p with
  | nullptr => Raise s
  | Ptr b =>
      match heap s !! b with
      | Some (BResult slots) =>
          match slots !! i with
          | Some d => Ok (wszInterfacePath d) s
          | None => Raise s
          end
      | _ => Raise s
      end
  end.

(** LPWSTR AllocCopyString(LPWSTR wsz) *)
Definition AllocCopyString (site : AllocSite) (wsz : wstring) : M ptr :=
  let cbAlloc := (Z.of_nat (length wsz) + 1) * 2 in
  result ← CoTaskMemAlloc site cbAlloc;
  match result with
  | Ptr b => modify (λ s, set_heap (<[b := BString wsz]> (heap s)) s);; mret result
  | nullptr => mret result
  end.

(** ** EnumerateUSBDevices *)

(** The count pass: for (cDevices = 0;; cDevices++). *)
Fixpoint count_loop (fuel : nat) (hDevInfo : HDEVINFO) : M unit :=
  match fuel with
  | O => stuck
  | S fuel =>
      n ← gets cDevices;
      found ← SetupDiEnumDeviceInfo hDevInfo n;
      match found with
      | Some _ => modify (set_cDevices (S n));; count_loop fuel hDevInfo
      | None => mret tt
      end
  end.

(** What the source does with one interface that
    SetupDiEnumDeviceInterfaces delivered. *)
Definition interface_body (hDevInfo : HDEVINFO) (iResult : nat)
    (deviceInterfaceData : SP_DEVICE_INTERFACE_DATA) : M unit :=
  let iInterface := ifIndex deviceInterfaceData in
  cbRequired ← SetupDiGetDeviceInterfaceDetailW_size hDevInfo deviceInterfaceData;
  pInterfaceDetail ← CoTaskMemAlloc (SiteDetail iResult iInterface) cbRequired;
  if negb (is_null pInterfaceDetail) then
    try_finally
      (Construct_detail pInterfaceDetail (to_int32 cbRequired);;
       ok ← SetupDiGetDeviceInterfaceDetailW hDevInfo deviceInterfaceData
              pInterfaceDetail cbRequired;
       if (ok : bool) then
         wsz ← DevicePath_of pInterfaceDetail;
         copy ← AllocCopyString (SitePath iResult iInterface) wsz;
         p ← gets pResult;
         store_wszInterfacePath p iResult copy;;
         path ← load_wszInterfacePath p iResult;
         if negb (is_null path) then
           hInterfaceDevice ← CreateFile path;
           if (hInterfaceDevice : bool) then
             try_finally (mret tt) CloseHandle
           else
             h ← HError; modify (set_hr h)
         else
           modify (set_hr E_OUTOFMEMORY)
       else
         h ← HError; modify (set_hr h))
      (CoTaskMemFree pInterfaceDetail)
  else
    modify (set_hr E_OUTOFMEMORY).

(** for (int iInterface = 0;; iInterface++) *)
Fixpoint interface_loop (fuel : nat) (hDevInfo : HDEVINFO) (iResult : nat)
    (devInfoInterface : SP_DEVINFO_DATA) (iInterface : nat) : M unit :=
  match fuel with
  | O => stuck
  | S fuel =>
      found ← SetupDiEnumDeviceInterfaces hDevInfo devInfoInterface iInterface;
      match found with
      | Some deviceInterfaceData =>
          interface_body hDevInfo iResult deviceInterfaceData;;
          interface_loop fuel hDevInfo iResult devInfoInterface (S iInterface)
      | None => mret tt   (* interface enumeration complete *)
      end
  end.

(** The fill pass: for (int iResult = 0; !hr; iResult++) *)
Fixpoint fill_loop (fuel : nat) (hDevInfo : HDEVINFO) (guidInterfaceClass : GUID)
    (iResult : nat) : M unit :=
  match fuel with
  | O => stuck
  | S fuel =>
      h ← gets hr;
      if h =? 0 then
        p ← gets pResult;
        store_guidInterface p iResult guidInterfaceClass;;
        found ← SetupDiEnumDeviceInfo hDevInfo iResult;
        match found with
        | Some devInfoInterface =>
            interface_loop (S (length (interfaces_of hDevInfo devInfoInterface)))
              hDevInfo iResult devInfoInterface 0%nat;;
            fill_loop fuel hDevInfo guidInterfaceClass (S iResult)
        | None => mret tt   (* device enumeration complete *)
        end
      else mret tt
  end.

(** The body of the outer __try.  cbResult is a size_t: with cDevices
    below 2^31 the product does not wrap. *)
Definition enumerate (hDevInfo : HDEVINFO) (guidInterfaceClass : GUID) : M unit :=
  modify (set_cDevices 0%nat);;
  count_loop (S (length hDevInfo)) hDevInfo;;
  n ← gets cDevices;
  let cbResult := Z.of_nat n * sizeof_EnumeratedUSBDevice in
  p ← CoTaskMemAlloc SiteResult cbResult;
  modify (set_pResult p);;
  Zero p cbResult;;
  if negb (is_null p) then
    fill_loop (S (length hDevInfo)) hDevInfo guidInterfaceClass 0%nat
  else if negb (n =? 0)%nat then
    modify (set_hr E_OUTOFMEMORY)
  else mret tt.

Definition EnumerateUSBDevices_M (guidInterfaceClass : GUID) : M Outcome :=
  opened ← SetupDiGetClassDevsW guidInterfaceClass;
  match opened with
  | Some hDevInfo =>
      try_finally (enumerate hDevInfo guidInterfaceClass)
                  (SetupDiDestroyDeviceInfoList hDevInfo)
  | None => e ← GetLastError; modify (set_err e)
  end;;
  p ← gets pResult;
  (if is_null p then modify (set_cDevices 0%nat) else mret tt);;
  n ← gets cDevices;
  h ← gets hr;
  mret (Returned (h =? 0) n p).

Definition EnumerateUSBDevices (guidInterfaceClass : GUID) : Outcome * State :=
  match EnumerateUSBDevices_M guidInterfaceClass entry with
  | Ok o s => (o, s)
  | Raise s => (Unwound, s)
  | Stuck => (OutOfFuel, entry)
  end.

End Program.

(** ** What the world answers at one interface *)

(** The five ways the processing of interface [iInterface] of device
    [iResult] can go, decided by the world alone. *)
Inductive Resolution : Type :=
| DetailAllocFailed                    (* no detail buffer *)
| DetailFailed (e : Z)                 (* the filling query failed *)
| CopyFailed (path : wstring)          (* AllocCopyString returned null *)
| OpenFailed (path : wstring) (e : Z)  (* CreateFile failed *)
| Opened (path : wstring).             (* everything went through *)

Definition resolution (W : World) (iResult iInterface : nat) (itf : DeviceInterface)
  : Resolution :=
  if AllocOk W (SiteDetail iResult iInterface) then
    match detail itf with
    | inl e => DetailFailed e
    | inr path =>
        if AllocOk W (SitePath iResult iInterface) then
          match OpenPath W path with
          | None => Opened path
          | Some e => OpenFailed path e
          end
        else CopyFailed path
    end
  else DetailAllocFailed.

(** An interface is clean when it is resolved, copied and opened. *)
Definition clean_interface (W : World) (iResult iInterface : nat) (itf : DeviceInterface)
  : bool :=
  match resolution W iResult iInterface itf with
  | Opened _ => true
  | _ => false
  end.

(** [clean_from W i j ifs]: the interfaces [ifs], numbered from [j] on,
    of device [i] are all clean. *)
Fixpoint clean_from (W : World) (iResult iInterface : nat) (ifs : list DeviceInterface)
  : bool :=
  match ifs with
  | [] => true
  | itf :: rest =>
      clean_interface W iResult iInterface itf && clean_from W iResult (S iInterface) rest
  end.

Definition clean_device (W : World) (iResult : nat) (dev : Device) : bool :=
  clean_from W iResult 0 dev.

(** [clean_devices W k devs]: the devices [devs], numbered from [k] on,
    are all clean. *)
Fixpoint clean_devices (W : World) (k : nat) (devs : list Device) : bool :=
  match devs with
  | [] => true
  | dev :: rest => clean_device W k dev && clean_devices W (S k) rest
  end.

(** The fill pass reaches device [i] when the devices before it are clean. *)
Definition reaches (W : World) (devs : HDEVINFO) (i : nat) : bool :=
  clean_devices W 0 (take i devs).

(** Failing calls leave a non-zero last-error value, as Win32 promises. *)
Definition detail_error_nonzero (itf : DeviceInterface) : Prop :=
  ∀ e, detail itf = inl e → e mod 2 ^ 32 ≠ 0.

Definition open_errors_nonzero (W : World) : Prop :=
  ∀ path e, OpenPath W path = Some e → e mod 2 ^ 32 ≠ 0.

Definition errors_nonzero (W : World) (devs : HDEVINFO) : Prop :=
  open_errors_nonzero W ∧ Forall (Forall detail_error_nonzero) devs.

(** ** The state after each part of the function

    The loops of the source, unrolled along the device information set:
    these functions give the state in which each part of the function
    ends.  They are proved equal to the program above and carry the
    inductions. *)

Definition set_slot_path (q : ptr) (d : EnumeratedUSBDevice) : EnumeratedUSBDevice :=
  {| guidInterface := guidInterface d; wszInterfacePath := q |}.
Definition set_slot_guid (g : GUID) (d : EnumeratedUSBDevice) : EnumeratedUSBDevice :=
  {| guidInterface := g; wszInterfacePath := wszInterfacePath d |}.

(** Apply [f] to element [i] of the array in block [b]. *)
Definition poke (b i : nat) (f : EnumeratedUSBDevice -> EnumeratedUSBDevice)
    (hp : list Block) : list Block :=
  match hp !! b with
  | Some (BResult slots) => <[b := BResult (alter f i slots)]> hp
  | _ => hp
  end.

Definition result_block (s : State) : nat :=
  match pResult s with Ptr b => b | nullptr => 0%nat end.

Definition body_effect (W : World) (i j : nat) (itf : DeviceInterface) (s : State) : State :=
  let n := length (heap s) in
  let b := result_block s in
  let cb := cbRequired itf in
  let t := EvGetDetailSize i j :: trace s in
  let ov := if cb <? sizeof_cbSize then OverrunCbSize n :: overruns s else overruns s in
  let cbs path := (Z.of_nat (length path) + 1) * 2 in
  let busy := ERROR_INSUFFICIENT_BUFFER mod 2 ^ 32 in
  match resolution W i j itf with
  | DetailAllocFailed =>
      mkState (heap s) (EvAlloc (SiteDetail i j) cb nullptr :: t) (overruns s)
        busy (pResult s) E_OUTOFMEMORY (cDevices s) (err s)
  | DetailFailed e =>
      mkState (heap s ++ [BFreed])
        (EvFree (Ptr n) :: EvGetDetail i j false
           :: EvAlloc (SiteDetail i j) cb (Ptr n) :: t)
        ov (e mod 2 ^ 32) (pResult s) (HRESULT_FROM_WIN32 (e mod 2 ^ 32))
        (cDevices s) (err s)
  | CopyFailed path =>
      mkState (poke b i (set_slot_path nullptr) (heap s) ++ [BFreed])
        (EvFree (Ptr n) :: EvStorePath i nullptr
           :: EvAlloc (SitePath i j) (cbs path) nullptr :: EvGetDetail i j true
           :: EvAlloc (SiteDetail i j) cb (Ptr n) :: t)
        ov busy (pResult s) E_OUTOFMEMORY (cDevices s) (err s)
  | OpenFailed path e =>
      mkState (poke b i (set_slot_path (Ptr (S n))) (heap s) ++ [BFreed; BString path])
        (EvFree (Ptr n) :: EvCreateFile (Ptr (S n)) false :: EvStorePath i (Ptr (S n))
           :: EvAlloc (SitePath i j) (cbs path) (Ptr (S n)) :: EvGetDetail i j true
           :: EvAlloc (SiteDetail i j) cb (Ptr n) :: t)
        ov (e mod 2 ^ 32) (pResult s) (HRESULT_FROM_WIN32 (e mod 2 ^ 32))
        (cDevices s) (err s)
  | Opened path =>
      mkState (poke b i (set_slot_path (Ptr (S n))) (heap s) ++ [BFreed; BString path])
        (EvFree (Ptr n) :: EvCloseHandle :: EvCreateFile (Ptr (S n)) true
           :: EvStorePath i (Ptr (S n))
           :: EvAlloc (SitePath i j) (cbs path) (Ptr (S n)) :: EvGetDetail i j true
           :: EvAlloc (SiteDetail i j) cb (Ptr n) :: t)
        ov busy (pResult s) (hr s) (cDevices s) (err s)
  end.

Definition no_more_items (e : Event) (s : State) : State :=
  log e (set_lastError ERROR_NO_MORE_ITEMS s).

(** The interface loop over the interfaces [ifs], numbered from [j] on. *)
Fixpoint interfaces_effect (W : World) (i j : nat) (ifs : list DeviceInterface)
    (s : State) : State :=
  match ifs with
  | [] => no_more_items (EvEnumDeviceInterfaces i j false) s
  | itf :: rest =>
      interfaces_effect W i (S j) rest
        (body_effect W i j itf (log (EvEnumDeviceInterfaces i j true) s))
  end.

(** pResult[k].guidInterface = g, in bounds or not. *)
Definition guid_effect (k : nat) (g : GUID) (s : State) : State :=
  let b := result_block s in
  match heap s !! b with
  | Some (BResult slots) =>
      if (k <? length slots)%nat
      then log (EvStoreGuid k g) (set_heap (poke b k (set_slot_guid g) (heap s)) s)
      else log (EvStoreGuid k g) (add_overrun (OverrunGuid b k g) s)
  | _ => s
  end.

(** The fill pass over the devices [devs], numbered from [k] on. *)
Fixpoint fill_effect (W : World) (g : GUID) (k : nat) (devs : list Device)
    (s : State) : State :=
  if hr s =? 0 then
    match devs with
    | [] => no_more_items (EvEnumDeviceInfo k false) (guid_effect k g s)
    | dev :: rest =>
        fill_effect W g (S k) rest
          (interfaces_effect W k 0 dev
             (log (EvEnumDeviceInfo k true) (guid_effect k g s)))
    end
  else s.

(** The count pass over the devices [devs], numbered from [k] on. *)
Fixpoint count_effect (k : nat) (devs : list Device) (s : State) : State :=
  match devs with
  | [] => no_more_items (EvEnumDeviceInfo k false) s
  | _ :: rest => count_effect (S k) rest (set_cDevices (S k) (log (EvEnumDeviceInfo k true) s))
  end.

(** The state when the output array has been allocated and zeroed. *)
Definition allocated (g : GUID) (devs : HDEVINFO) : State :=
  let s := count_effect 0 devs (log (EvGetClassDevs g true) entry) in
  let cb := Z.of_nat (length devs) * sizeof_EnumeratedUSBDevice in
  mkState [BResult (replicate (length devs) zero_slot)]
    (EvZero (Ptr 0) cb :: EvAlloc SiteResult cb (Ptr 0) :: trace s)
    [] (lastError s) (Ptr 0) S_OK (length devs) 0.

(** The state when the call returns, the array having been allocated. *)
Definition completed (W : World) (g : GUID) (devs : HDEVINFO) : State :=
  log EvDestroy (fill_effect W g 0 devs (allocated g devs)).

(** The output array is allocated, zeroed and has [n] elements. *)
Definition array_ready (n : nat) (s : State) : Prop :=
  ∃ b slots, pResult s = Ptr b ∧ heap s !! b = Some (BResult slots) ∧ length slots = n.


(** The state in which the array allocation has failed. *)
Definition not_allocated (g : GUID) (devs : HDEVINFO) : State :=
  let s := count_effect 0 devs (log (EvGetClassDevs g true) entry) in
  let cb := Z.of_nat (length devs) * sizeof_EnumeratedUSBDevice in
  mkState [] (EvDestroy :: EvZero nullptr cb :: EvAlloc SiteResult cb nullptr :: trace s)
    [] (lastError s) nullptr S_OK (length devs) 0.

(** ** What the caller sees *)

(** The elements of the returned array: *pcDevices elements behind
    *ppResult. *)
Definition returned_devices (r : Outcome * State) : option (list EnumeratedUSBDevice) :=
  match fst r with
  | Returned _ n nullptr => if (n =? 0)%nat then Some [] else None
  | Returned _ n (Ptr b) =>
      match heap (snd r) !! b with
      | Some (BResult slots) => Some (take n slots)
      | _ => None
      end
  | _ => None
  end.

(** The string a path pointer designates. *)
Definition string_at (s : State) (p : ptr) : option wstring :=
  match p with
  | nullptr => None
  | Ptr q => match heap s !! q with Some (BString w) => Some w | _ => None end
  end.

(** The output array, and its element [k]. *)
Definition the_slots (s : State) : list EnumeratedUSBDevice :=
  match heap s !! result_block s with
  | Some (BResult slots) => slots
  | _ => []
  end.

Definition slot_at (s : State) (k : nat) : option EnumeratedUSBDevice :=
  the_slots s !! k.

(** The last pointer the interface loop stores into the slot of device
    [i], read off the world: [None] when nothing is stored, [Some None]
    when the last store is the null pointer of a failed copy,
    [Some (Some path)] when it is a copy of [path]. *)
Fixpoint last_store (W : World) (i j : nat) (ifs : list DeviceInterface)
    (acc : option (option wstring)) : option (option wstring) :=
  match ifs with
  | [] => acc
  | itf :: rest =>
      last_store W i (S j) rest
        match resolution W i j itf with
        | DetailAllocFailed | DetailFailed _ => acc
        | CopyFailed _ => Some None
        | OpenFailed path _ | Opened path => Some (Some path)
        end
  end.

(** The pointer the processing of one interface stores, if any. *)
Definition stored (W : World) (i j : nat) (itf : DeviceInterface) (s : State) : option ptr :=
  match resolution W i j itf with
  | DetailAllocFailed | DetailFailed _ => None
  | CopyFailed _ => Some nullptr
  | OpenFailed _ _ | Opened _ => Some (Ptr (S (length (heap s))))
  end.

(** [p] is null, or designates a copy of the given path. *)
Definition holds (s : State) (p : ptr) (v : option wstring) : Prop :=
  match v with
  | None => p = nullptr
  | Some path => string_at s p = Some path
  end.

(** The slot of device [i] once the fill pass has dealt with it. *)
Definition filled (W : World) (g : GUID) (i : nat) (dev : Device) (s : State)
    (d : EnumeratedUSBDevice) : Prop :=
  guidInterface d = g ∧
  match last_store W i 0 dev None with
  | None => wszInterfacePath d = nullptr
  | Some v => holds s (wszInterfacePath d) v
  end.

(** ** Properties of traces *)

(** The events that allocate the output array. *)
Definition is_result_alloc (e : Event) : bool :=
  match e with
  | EvAlloc SiteResult _ _ => true
  | _ => false
  end.

(** In a trace (newest event first): every device query made after the
    output array was allocated directly follows the store of the class
    identifier [g] at the same index. *)
Fixpoint store_precedes_check (g : GUID) (t : list Event) : bool :=
  match t with
  | [] => true
  | e :: older =>
      match e with
      | EvEnumDeviceInfo i _ =>
          if existsb is_result_alloc older then
            match older with
            | EvStoreGuid k g' :: _ => (i =? k)%nat && (g' =? g)
            | _ => false
            end
          else true
      | _ => true
      end && store_precedes_check g older
  end.

(** The life of the session handle and of the detail buffer. *)
Inductive Session : Type :=
| NoSession
| SessionOpen
| SessionDestroyed.

Record Resources : Type := mkResources {
  session : Session;
  buffer : option nat    (* the detail buffer that awaits its CoTaskMemFree *)
}.

(** One event: [None] when it breaks the discipline.  The session is
    opened at most once and destroyed only while open; a detail buffer
    is allocated only when none is pending and freed only while pending;
    both enumeration queries and the destruction of the session find no
    buffer pending. *)
Definition resources_step (r : Resources) (e : Event) : option Resources :=
  match e with
  | EvGetClassDevs _ ok =>
      match session r with
      | NoSession => Some (mkResources (if ok then SessionOpen else NoSession) (buffer r))
      | _ => None
      end
  | EvDestroy =>
      match session r, buffer r with
      | SessionOpen, None => Some (mkResources SessionDestroyed None)
      | _, _ => None
      end
  | EvAlloc (SiteDetail _ _) _ (Ptr b) =>
      match session r, buffer r with
      | SessionOpen, None => Some (mkResources SessionOpen (Some b))
      | _, _ => None
      end
  | EvFree p =>
      match p, buffer r with
      | Ptr b, Some b' => if (b =? b')%nat then Some (mkResources (session r) None) else None
      | _, _ => None
      end
  | EvEnumDeviceInfo _ _ | EvEnumDeviceInterfaces _ _ _ =>
      match session r, buffer r with
      | SessionOpen, None => Some r
      | _, _ => None
      end
  | _ => Some r
  end.

(** The resources after a trace (newest event first). *)
Fixpoint resources (t : list Event) : option Resources :=
  match t with
  | [] => Some (mkResources NoSession None)
  | e :: older => resources older ≫= λ r, resources_step r e
  end.

(** At the end nothing is held: the session is destroyed unless it was
    never opened, and no detail buffer is pending. *)
Definition released (t : list Event) : bool :=
  match resources t with
  | Some {| session := NoSession; buffer := None |}
  | Some {| session := SessionDestroyed; buffer := None |} => true
  | _ => false
  end.

Definition is_open (e : Event) : bool :=
  match e with EvGetClassDevs _ true => true | _ => false end.
Definition is_destroy (e : Event) : bool :=
  match e with EvDestroy => true | _ => false end.
Definition is_detail_alloc (b : nat) (e : Event) : bool :=
  match e with EvAlloc (SiteDetail _ _) _ (Ptr b') => (b =? b')%nat | _ => false end.
Definition is_free (b : nat) (e : Event) : bool :=
  match e with EvFree (Ptr b') => (b =? b')%nat | _ => false end.

Fixpoint count (f : Event → bool) (t : list Event) : nat :=
  match t with
  | [] => 0
  | e :: older => ((if f e then 1 else 0) + count f older)%nat
  end.

(** The two enumeration queries, with which the loops proceed. *)
Definition is_query (e : Event) : bool :=
  match e with
  | EvEnumDeviceInfo _ _ | EvEnumDeviceInterfaces _ _ _ => true
  | _ => false
  end.

(** The session is open and no detail buffer is pending. *)
Definition steady (t : list Event) : Prop :=
  resources t = Some (mkResources SessionOpen None).

(** ** Sample worlds *)

(** The session cannot be opened: ERROR_ACCESS_DENIED. *)
Definition world_closed : World :=
  {| ClassDevs := λ _, inl 5; AllocOk := λ _, true; OpenPath := λ _, None |}.

(** The session opens on the given device set. *)
Definition world_of (devs : HDEVINFO) (alloc : AllocSite → bool)
    (open : wstring → option Z) : World :=
  {| ClassDevs := λ _, inr devs; AllocOk := alloc; OpenPath := open |}.

(** An interface whose detail query succeeds. *)
Definition one_interface (path : wstring) : DeviceInterface :=
  {| cbRequired := 40; detail := inr path; cbRequired_fits := eq_refl |}.

Definition all_alloc (site : AllocSite) : bool := true.
Definition all_open (path : wstring) : option Z := None.
Definition none_open (path : wstring) : option Z := Some 5.

(** The output array cannot be allocated. *)
Definition no_array (site : AllocSite) : bool :=
  match site with SiteResult => false | _ => true end.

(** The path of interface 0 of device 0 cannot be copied. *)
Definition no_first_copy (site : AllocSite) : bool :=
  match site with SitePath 0 0 => false | _ => true end.

Definition path_a : wstring := [92; 97].
Definition path_b : wstring := [92; 98].
Definition path_c : wstring := [92; 99].

(** One device without interfaces. *)
Definition world_bare : World := world_of [[]] all_alloc all_open.

(** Two devices of one interface each. *)
Definition world_pair : World :=
  world_of [[one_interface path_a]; [one_interface path_b]] all_alloc all_open.

(** A device of two interfaces, then a device of one. *)
Definition devs_two_one : HDEVINFO :=
  [[one_interface path_a; one_interface path_b]; [one_interface path_c]].
Definition world_two_one : World := world_of devs_two_one all_alloc all_open.

(** The same devices; the first path copy fails. *)
Definition world_copy_fails : World := world_of devs_two_one no_first_copy all_open.

(** One device of one interface which CreateFile cannot open. *)
Definition world_locked : World :=
  world_of [[one_interface path_a]] all_alloc none_open.




(** ** Further observations *)

(** The device an event of the fill pass deals with.  The device
    queries themselves, which both passes make, are left out. *)
Definition event_device (e : Event) : option nat :=
  match e with
  | EvEnumDeviceInterfaces i _ _ | EvGetDetailSize i _ | EvGetDetail i _ _
  | EvStoreGuid i _ | EvStorePath i _ => Some i
  | EvAlloc (SiteDetail i _) _ _ | EvAlloc (SitePath i _) _ _ => Some i
  | _ => None
  end.

(** No event of the trace deals with a device after [k]. *)
Definition devices_up_to (k : nat) (t : list Event) : Prop :=
  Forall (λ e, ∀ i, event_device e = Some i → (i ≤ k)%nat) t.

(** In a trace (newest event first): every handle CreateFile returned
    is closed by the very next call, and CloseHandle is called on nothing
    else. *)
Fixpoint handles_paired (t : list Event) : bool :=
  match t with
  | [] => true
  | EvCreateFile _ true :: _ => false
  | EvCloseHandle :: EvCreateFile _ true :: older => handles_paired older
  | EvCloseHandle :: _ => false
  | _ :: older => handles_paired older
  end.

(** Every path pointer of the output array satisfies [Q], which may
    depend on the index of the element. *)
Definition paths_satisfy (Q : nat → ptr → Prop) (s : State) : Prop :=
  ∀ k d, the_slots s !! k = Some d → Q k (wszInterfacePath d).

(** The path pointers of the output array designate blocks below [m]. *)
Definition below (m : nat) (k : nat) (p : ptr) : Prop :=
  ∀ q, p = Ptr q → (q < m)%nat.

(** Block [q] is designated by element [i] of the output array at most. *)
Definition only_at (q i : nat) (k : nat) (p : ptr) : Prop := p = Ptr q → k = i.

(** Block [q] is designated by no element of the output array. *)
Definition not_at (q : nat) (k : nat) (p : ptr) : Prop := p ≠ Ptr q.

(** The output array has [n] elements and its path pointers designate
    blocks of the heap. *)
Definition bounded (n : nat) (s : State) : Prop :=
  array_ready n s ∧ paths_satisfy (below (length (heap s))) s.

(** Block [q] is allocated, the output array has [n] elements and its
    path pointers satisfy [Q]. *)
Definition kept (n q : nat) (Q : nat → ptr → Prop) (s : State) : Prop :=
  (q < length (heap s))%nat ∧ array_ready n s ∧ paths_satisfy Q s.

(** ** GetDeviceInstanceId

    EnumerateUSBDevices does not call this function (the call is
    commented out in the source); it is modelled on its own.  Its
    collaborator SetupDiGetDeviceInstanceIdW is a script as well: for
    the buffer and the buffer size it is given, the call fails with an
    error code, leaving the size it requires in *RequiredSize or leaving
    *RequiredSize alone; or it writes the identifier to the buffer and
    succeeds; or it faults.  The two queries leave no event in the
    trace.  The sizes are DWORD values that the function hands on
    without arithmetic.  An identifier longer than the block it is
    written to is held by the block all the same. *)
Inductive IdAnswer : Type :=
| IdFails (e : Z) (required : option Z)
| IdWritten (id : wstring) (required : Z)
| IdFaults.

Definition IdScript : Type := ptr → Z → IdAnswer.

(** SetupDiGetDeviceInstanceIdW(h, &devInfo, DeviceInstanceId,
    DeviceInstanceIdSize, &RequiredSize): the value of the call and what
    is in RequiredSize afterwards. *)
Definition SetupDiGetDeviceInstanceIdW (answers : IdScript) (DeviceInstanceId : ptr)
    (DeviceInstanceIdSize RequiredSize : Z) : M (bool * Z) := λ s,
  match answers DeviceInstanceId DeviceInstanceIdSize with
  | IdFails e required => Ok (false, default RequiredSize required) (set_lastError e s)
  | IdWritten id required =>
      match DeviceInstanceId with
      | Ptr b =>
          match heap s !! b with
          | Some (BRaw _) =>
              Ok (true, required) (set_heap (<[b := BString id]> (heap s)) s)
          | _ => Raise s
          end
      | nullptr => Raise s
      end
  | IdFaults => Raise s
  end.

(** LPWSTR GetDeviceInstanceId(HDEVINFO hDevInfo, SP_DEVINFO_DATA& devInfoDevice) *)
Definition GetDeviceInstanceId (W : World) (answers : IdScript) (site : AllocSite)
  : M ptr :=
  let cbRequired := 0 in
  sizing ← SetupDiGetDeviceInstanceIdW answers nullptr cbRequired cbRequired;
  let cbRequired := snd sizing in
  result ← CoTaskMemAlloc W site cbRequired;
  filling ← SetupDiGetDeviceInstanceIdW answers result cbRequired cbRequired;
  if (fst filling : bool) then mret result
  else CoTaskMemFree result;; mret nullptr.

(** The identifier is [id]; the queries answer as documented: sizes
    are counted in characters, terminator included. *)
Definition id_script (id : wstring) : IdScript := λ buffer size,
  let n := Z.of_nat (length id) + 1 in
  if size <? n then IdFails ERROR_INSUFFICIENT_BUFFER (Some n)
  else match buffer with
       | nullptr => IdFails ERROR_INVALID_PARAMETER None
       | Ptr _ => IdWritten id n
       end.

(** * Proofs *)

(** ** The program and its unrolling agree *)

Ltac unfold_M :=
  unfold mbind, M_bind, mret, M_ret, modify, gets, raise, stuck, try_finally.

Ltac run :=
  cbv beta iota zeta delta [heap trace overruns lastError pResult hr cDevices err
       set_heap log add_overrun set_lastError set_pResult set_hr set_cDevices set_err
       no_more_items is_null negb fmap option_fmap option_map from_option default
       mbind option_bind ifDevice ifIndex DevInst];
  cbn [wszInterfacePath guidInterface].

(** __finally runs on both ways out of the __try. *)
Lemma try_finally_return {A} (body : M A) (handler : M unit) (s s1 s2 : State) (a : A) :
  body s = Ok a s1 → handler s1 = Ok tt s2 → try_finally body handler s = Ok a s2.
Proof. intros Hb Hh. unfold try_finally. by rewrite Hb, Hh. Qed.

Lemma try_finally_unwind {A} (body : M A) (handler : M unit) (s s1 s2 : State) :
  body s = Raise s1 → handler s1 = Ok tt s2 → try_finally body handler s = Raise s2.
Proof. intros Hb Hh. unfold try_finally. by rewrite Hb, Hh. Qed.

Section Bridge.

Variable W : World.

Lemma snoc_insert {A} (l : list A) (x y : A) : <[length l := y]> (l ++ [x]) = l ++ [y].
Proof.
  rewrite insert_app_r_alt by lia. by rewrite Nat.sub_diag.
Qed.

Lemma lookup_snoc {A} (l : list A) (x : A) : (l ++ [x]) !! length l = Some x.
Proof. by rewrite lookup_app_r, Nat.sub_diag by lia. Qed.

Lemma state_ext (s1 s2 : State) :
  heap s1 = heap s2 → trace s1 = trace s2 → overruns s1 = overruns s2 →
  lastError s1 = lastError s2 → pResult s1 = pResult s2 → hr s1 = hr s2 →
  cDevices s1 = cDevices s2 → err s1 = err s2 → s1 = s2.
Proof. destruct s1, s2; cbn; intros; by subst. Qed.

Ltac state_eq := f_equal; apply state_ext; run; try reflexivity; try assumption.

Lemma insert_as_alter {A} (f : A → A) (l : list A) (i : nat) (x : A) :
  l !! i = Some x → <[i := f x]> l = alter f i l.
Proof.
  intros Hx. apply list_eq. intros k. destruct (decide (i = k)) as [->|Hne].
  - rewrite list_lookup_insert_eq by (eapply lookup_lt_Some; eauto).
    by rewrite list_lookup_alter_eq, Hx.
  - by rewrite list_lookup_insert_ne, list_lookup_alter_ne.
Qed.

Lemma store_path_alter (slots : list EnumeratedUSBDevice) (i : nat)
    (d : EnumeratedUSBDevice) (q : ptr) :
  slots !! i = Some d →
  <[i := {| guidInterface := guidInterface d; wszInterfacePath := q |}]> slots
  = alter (set_slot_path q) i slots.
Proof. apply (insert_as_alter (set_slot_path q)). Qed.

Lemma store_guid_alter (slots : list EnumeratedUSBDevice) (i : nat)
    (d : EnumeratedUSBDevice) (g : GUID) :
  slots !! i = Some d →
  <[i := {| guidInterface := g; wszInterfacePath := wszInterfacePath d |}]> slots
  = alter (set_slot_guid g) i slots.
Proof. apply (insert_as_alter (set_slot_guid g)). Qed.

Lemma heap_release1 (hp : list Block) (b : nat) (R x : Block) :
  (b < length hp)%nat →
  <[length hp := BFreed]> (<[b := R]> (hp ++ [x])) = <[b := R]> hp ++ [BFreed].
Proof.
  intros Hb. rewrite insert_app_l by done.
  rewrite <- (length_insert hp b R) at 1. apply snoc_insert.
Qed.

Lemma heap_release2 (hp : list Block) (b : nat) (R x y : Block) :
  (b < length hp)%nat →
  <[length hp := BFreed]> (<[b := R]> ((hp ++ [x]) ++ [y]))
  = <[b := R]> hp ++ [BFreed; y].
Proof.
  intros Hb. rewrite insert_app_l by (rewrite length_app; lia).
  rewrite insert_app_l by (rewrite length_insert, length_app; cbn; lia).
  rewrite heap_release1 by done. by rewrite <- app_assoc.
Qed.

Lemma cbRequired_int (itf : DeviceInterface) :
  to_int32 (cbRequired itf) = cbRequired itf ∧
  (to_size_t (cbRequired itf) <=? cbRequired itf) = true.
Proof.
  pose proof (cbRequired_fits itf) as Hf.
  apply andb_true_iff in Hf as [Hlo%Z.leb_le Hhi%Z.ltb_lt].
  unfold to_int32, to_size_t. rewrite !Z.mod_small by lia.
  split; [|by apply Z.leb_le]. by apply Z.ltb_lt in Hhi as ->.
Qed.

Lemma interface_body_effect (hDevInfo : HDEVINFO) (i j : nat) (dev : Device)
    (itf : DeviceInterface) (s : State) (b : nat) (slots : list EnumeratedUSBDevice)
    (d : EnumeratedUSBDevice) :
  hDevInfo !! i = Some dev → dev !! j = Some itf →
  pResult s = Ptr b → heap s !! b = Some (BResult slots) → slots !! i = Some d →
  interface_body W hDevInfo i {| ifDevice := i; ifIndex := j |} s
  = Ok tt (body_effect W i j itf s).
Proof.
  destruct s as [hp tr ov le pr hr0 cd er]. cbn [pResult heap].
  intros Hdev Hitf -> Hb Hd.
  assert (Hlt : (b < length hp)%nat) by (eapply lookup_lt_Some; eauto).
  assert (Hi : (i < length slots)%nat) by (eapply lookup_lt_Some; eauto).
  unfold interface_body, body_effect, resolution, result_block, poke.
  unfold SetupDiGetDeviceInterfaceDetailW_size, SetupDiGetDeviceInterfaceDetailW,
    CoTaskMemAlloc, Construct_detail, DevicePath_of, AllocCopyString, CoTaskMemAlloc,
    store_wszInterfacePath, load_wszInterfacePath, CreateFile, CoTaskMemFree, CloseHandle,
    HError, GetLastError, interface_at.
  cbn [ifDevice ifIndex]. unfold_M. rewrite Hdev. run. rewrite Hitf, Hb. run.
  destruct (cbRequired_int itf) as [Hint Hsize]. rewrite Hint.
  destruct (AllocOk W (SiteDetail i j)) eqn:Ha; run; [|done].
  rewrite lookup_snoc, Hsize. run. rewrite !snoc_insert.
  destruct (detail itf) as [e|path] eqn:Hdet.
  { destruct (cbRequired itf <? sizeof_cbSize) eqn:Hsz; run; by rewrite snoc_insert. }
  assert (Hn : ∀ D : Block, b ≠ length (hp ++ [D])) by (intros; rewrite length_app; cbn; lia).
  destruct (AllocOk W (SitePath i j)) eqn:Hc.
  - assert (E1 : ∀ D, ((hp ++ [D]) ++ [BString path]) !! b = Some (BResult slots))
      by (by intros; do 2 apply lookup_app_l_Some).
    assert (Hlt2 : ∀ D, (b < length ((hp ++ [D]) ++ [BString path]))%nat)
      by (intros; rewrite !length_app; lia).
    destruct (cbRequired itf <? sizeof_cbSize) eqn:Hsz; run;
      rewrite ?snoc_insert, lookup_snoc; run;
      rewrite ?snoc_insert, E1, Hd; run;
      rewrite list_lookup_insert_eq by done; run;
      rewrite list_lookup_insert_eq by done; run;
      rewrite list_lookup_insert_ne, lookup_snoc by done; run;
      (destruct (OpenPath W path) as [e|] eqn:Ho; run;
       rewrite heap_release2 by done;
       rewrite (store_path_alter slots i d) by done;
       rewrite length_app, Nat.add_1_r; reflexivity).
  - assert (E1 : ∀ D, (hp ++ [D]) !! b = Some (BResult slots))
      by (by intros; apply lookup_app_l_Some).
    assert (Hlt2 : ∀ D, (b < length (hp ++ [D]))%nat)
      by (intros; rewrite !length_app; lia).
    destruct (cbRequired itf <? sizeof_cbSize) eqn:Hsz; run;
      rewrite ?snoc_insert, lookup_snoc; run;
      rewrite E1, Hd; run;
      rewrite list_lookup_insert_eq by done; run;
      rewrite list_lookup_insert_eq by done; run;
      rewrite heap_release1 by done;
      rewrite (store_path_alter slots i d) by done;
      reflexivity.
Qed.

(** *** The array stays where it is *)

Lemma poke_lookup_eq (b i : nat) f (hp : list Block) slots :
  hp !! b = Some (BResult slots) →
  poke b i f hp !! b = Some (BResult (alter f i slots)).
Proof.
  intros Hb. unfold poke. rewrite Hb.
  apply list_lookup_insert_eq. eapply lookup_lt_Some; eauto.
Qed.

Lemma poke_lookup_ne (b b' i : nat) f (hp : list Block) :
  b ≠ b' → poke b i f hp !! b' = hp !! b'.
Proof.
  intros Hne. unfold poke. destruct (hp !! b) as [[]|]; try done.
  by apply list_lookup_insert_ne.
Qed.

Lemma length_poke (b i : nat) f (hp : list Block) : length (poke b i f hp) = length hp.
Proof.
  unfold poke. destruct (hp !! b) as [[]|]; try done. apply length_insert.
Qed.

Lemma pResult_body_effect i j itf s : pResult (body_effect W i j itf s) = pResult s.
Proof. unfold body_effect. by destruct (resolution W i j itf). Qed.

Lemma cDevices_body_effect i j itf s : cDevices (body_effect W i j itf s) = cDevices s.
Proof. unfold body_effect. by destruct (resolution W i j itf). Qed.

Lemma pResult_interfaces_effect i ifs : ∀ j s,
  pResult (interfaces_effect W i j ifs s) = pResult s.
Proof.
  induction ifs as [|itf rest IH]; intros j s; cbn; [done|].
  by rewrite IH, pResult_body_effect.
Qed.

Lemma cDevices_interfaces_effect i ifs : ∀ j s,
  cDevices (interfaces_effect W i j ifs s) = cDevices s.
Proof.
  induction ifs as [|itf rest IH]; intros j s; cbn; [done|].
  by rewrite IH, cDevices_body_effect.
Qed.

Lemma guid_effect_inside k g s slots :
  heap s !! result_block s = Some (BResult slots) → (k < length slots)%nat →
  guid_effect k g s
  = log (EvStoreGuid k g) (set_heap (poke (result_block s) k (set_slot_guid g) (heap s)) s).
Proof.
  intros Hb Hk. unfold guid_effect. rewrite Hb.
  by apply Nat.ltb_lt in Hk as ->.
Qed.

Lemma guid_effect_outside k g s slots :
  heap s !! result_block s = Some (BResult slots) → (length slots ≤ k)%nat →
  guid_effect k g s
  = log (EvStoreGuid k g) (add_overrun (OverrunGuid (result_block s) k g) s).
Proof.
  intros Hb Hk. unfold guid_effect. rewrite Hb.
  by apply Nat.ltb_ge in Hk as ->.
Qed.

Lemma array_ready_block n s :
  array_ready n s →
  ∃ slots, heap s !! result_block s = Some (BResult slots) ∧ length slots = n.
Proof. intros (b & slots & Hp & Hb & Hn). unfold result_block. rewrite Hp. eauto. Qed.

Lemma array_ready_log n e s : array_ready n s → array_ready n (log e s).
Proof. done. Qed.

Lemma array_ready_body n i j itf s :
  array_ready n s → array_ready n (body_effect W i j itf s).
Proof.
  intros (b & slots & Hp & Hb & Hn). unfold body_effect, result_block. rewrite Hp.
  destruct (resolution W i j itf); cbn.
  1,2: exists b, slots; split_and!; try done; by apply lookup_app_l_Some.
  all: eexists b, _; split_and!;
    [done | apply lookup_app_l_Some, poke_lookup_eq; done | by rewrite length_alter].
Qed.

Lemma array_ready_interfaces n i ifs : ∀ j s,
  array_ready n s → array_ready n (interfaces_effect W i j ifs s).
Proof.
  induction ifs as [|itf rest IH]; intros j s Hs; cbn; [done|].
  by apply IH, array_ready_body.
Qed.

Lemma array_ready_guid n k g s : array_ready n s → array_ready n (guid_effect k g s).
Proof.
  intros Hs. destruct (array_ready_block n s Hs) as (slots & Hb & Hn).
  destruct Hs as (b & slots' & Hp & Hb' & _).
  destruct (decide (k < length slots)%nat) as [Hk|Hk].
  - rewrite (guid_effect_inside k g s slots) by done.
    unfold result_block in *. rewrite Hp in *.
    eexists b, _. split_and!; [done | by apply poke_lookup_eq | by rewrite length_alter].
  - rewrite (guid_effect_outside k g s slots) by (done || lia).
    unfold result_block in *. rewrite Hp in *. by exists b, slots.
Qed.

(** *** The loops *)

Lemma drop_cons_inv {A} (l : list A) (j : nat) (x : A) (rest : list A) :
  drop j l = x :: rest → l !! j = Some x ∧ drop (S j) l = rest.
Proof.
  intros Hd.
  assert (Hx : l !! j = Some x).
  { rewrite <- (Nat.add_0_r j), <- lookup_drop, Hd. done. }
  split; [done|]. rewrite (drop_S l x j Hx) in Hd. by injection Hd.
Qed.

Lemma drop_nil_inv {A} (l : list A) (j : nat) : drop j l = [] → l !! j = None.
Proof.
  intros Hd. rewrite <- (Nat.add_0_r j), <- lookup_drop, Hd. done.
Qed.

Lemma interface_loop_effect (hDevInfo : HDEVINFO) (i : nat) (dev : Device) (n : nat) :
  hDevInfo !! i = Some dev → (i < n)%nat →
  ∀ rest j fuel s,
    drop j dev = rest → (length rest < fuel)%nat → array_ready n s →
    interface_loop W fuel hDevInfo i {| DevInst := i |} j s
    = Ok tt (interfaces_effect W i j rest s).
Proof.
  intros Hdev Hi rest. induction rest as [|itf rest IH]; intros j fuel s Hd Hf Hs.
  - destruct fuel as [|fuel]; [cbn in Hf; lia|].
    apply drop_nil_inv in Hd. cbn [interface_loop interfaces_effect].
    unfold SetupDiEnumDeviceInterfaces, interfaces_of. cbn [DevInst].
    rewrite Hdev. cbn [from_option id]. rewrite Hd. unfold_M. done.
  - destruct fuel as [|fuel]; [cbn in Hf; lia|].
    apply drop_cons_inv in Hd as [Hj Hd]. cbn [interface_loop interfaces_effect].
    unfold SetupDiEnumDeviceInterfaces, interfaces_of. cbn [DevInst].
    rewrite Hdev. cbn [from_option id]. rewrite Hj. unfold_M.
    assert (Hs1 : array_ready n (log (EvEnumDeviceInterfaces i j true) s)) by done.
    destruct Hs1 as (b & slots & Hp & Hb & Hn).
    destruct (lookup_lt_is_Some_2 slots i) as [d Hd']; [lia|].
    rewrite (interface_body_effect hDevInfo i j dev itf _ b slots d) by done.
    apply IH; [done | cbn in Hf; lia |].
    apply array_ready_body. by exists b, slots.
Qed.

Lemma count_loop_effect (hDevInfo : HDEVINFO) :
  ∀ rest fuel s,
    drop (cDevices s) hDevInfo = rest → (length rest < fuel)%nat →
    count_loop fuel hDevInfo s = Ok tt (count_effect (cDevices s) rest s).
Proof.
  intros rest. induction rest as [|dev rest IH]; intros fuel s Hd Hf.
  - destruct fuel as [|fuel]; [cbn in Hf; lia|].
    apply drop_nil_inv in Hd. cbn [count_loop count_effect].
    unfold SetupDiEnumDeviceInfo. unfold_M. rewrite Hd. done.
  - destruct fuel as [|fuel]; [cbn in Hf; lia|].
    apply drop_cons_inv in Hd as [Hj Hd]. cbn [count_loop count_effect].
    unfold SetupDiEnumDeviceInfo. unfold_M. rewrite Hj.
    rewrite (IH fuel (set_cDevices (S (cDevices s)) (log (EvEnumDeviceInfo (cDevices s) true) s)));
      [done | done | cbn in Hf; lia].
Qed.

Lemma store_guidInterface_effect n k g s :
  array_ready n s →
  store_guidInterface (pResult s) k g s = Ok tt (guid_effect k g s).
Proof.
  intros (b & slots & Hp & Hb & Hn).
  unfold store_guidInterface, guid_effect, result_block, poke. rewrite Hp, Hb.
  destruct (slots !! k) as [d|] eqn:Hk.
  - assert (k < length slots)%nat as ->%Nat.ltb_lt by (eapply lookup_lt_Some; eauto).
    by rewrite (store_guid_alter slots k d).
  - by apply lookup_ge_None in Hk as ->%Nat.ltb_ge.
Qed.

Lemma fill_loop_effect (hDevInfo : HDEVINFO) (g : GUID) :
  ∀ rest k fuel s,
    drop k hDevInfo = rest → (length rest < fuel)%nat →
    array_ready (length hDevInfo) s →
    fill_loop W fuel hDevInfo g k s = Ok tt (fill_effect W g k rest s).
Proof.
  intros rest. induction rest as [|dev rest IH]; intros k fuel s Hd Hf Hs.
  - destruct fuel as [|fuel]; [cbn in Hf; lia|].
    apply drop_nil_inv in Hd. cbn [fill_loop fill_effect]. unfold_M.
    destruct (hr s =? 0); [|done].
    rewrite (store_guidInterface_effect _ k g s Hs).
    unfold SetupDiEnumDeviceInfo. unfold_M. rewrite Hd. done.
  - destruct fuel as [|fuel]; [cbn in Hf; lia|].
    apply drop_cons_inv in Hd as [Hk Hd]. cbn [fill_loop fill_effect]. unfold_M.
    destruct (hr s =? 0); [|done].
    rewrite (store_guidInterface_effect _ k g s Hs).
    unfold SetupDiEnumDeviceInfo. unfold_M. rewrite Hk.
    unfold interfaces_of. cbn [DevInst]. rewrite Hk. cbn [from_option id].
    assert (Hs1 : array_ready (length hDevInfo)
                    (log (EvEnumDeviceInfo k true) (guid_effect k g s)))
      by (by apply array_ready_log, array_ready_guid).
    rewrite (interface_loop_effect hDevInfo k dev (length hDevInfo) Hk
               (lookup_lt_Some _ _ _ Hk) dev 0%nat); [|done|lia|done].
    apply IH; [done | cbn in Hf; lia |].
    by apply array_ready_interfaces.
Qed.

(** *** The whole function *)

Lemma count_effect_frame rest : ∀ k s,
  heap (count_effect k rest s) = heap s ∧
  overruns (count_effect k rest s) = overruns s ∧
  pResult (count_effect k rest s) = pResult s ∧
  hr (count_effect k rest s) = hr s ∧
  err (count_effect k rest s) = err s.
Proof.
  induction rest as [|dev rest IH]; intros k s; cbn [count_effect]; [done|].
  destruct (IH (S k) (set_cDevices (S k) (log (EvEnumDeviceInfo k true) s)))
    as (-> & -> & -> & -> & ->). done.
Qed.

Lemma cDevices_count_effect rest : ∀ k s,
  cDevices s = k → cDevices (count_effect k rest s) = (k + length rest)%nat.
Proof.
  induction rest as [|dev rest IH]; intros k s Hk; cbn [count_effect length].
  - cbn. lia.
  - rewrite IH by done. lia.
Qed.

Lemma slots_of_bytes (n : nat) :
  Z.to_nat (Z.of_nat n * sizeof_EnumeratedUSBDevice / sizeof_EnumeratedUSBDevice) = n.
Proof. rewrite Z.div_mul by done. apply Nat2Z.id. Qed.

Lemma array_ready_allocated g devs : array_ready (length devs) (allocated g devs).
Proof.
  exists 0%nat, (replicate (length devs) zero_slot).
  split_and!; [done | done | apply length_replicate].
Qed.

Lemma enumerate_effect (devs : HDEVINFO) (g : GUID) :
  AllocOk W SiteResult = true →
  enumerate W devs g (log (EvGetClassDevs g true) entry)
  = Ok tt (fill_effect W g 0 devs (allocated g devs)).
Proof.
  intros Ha. unfold enumerate. unfold_M.
  set (s0 := set_cDevices 0 (log (EvGetClassDevs g true) entry)).
  rewrite (count_loop_effect devs devs (S (length devs)) s0) by (done || lia).
  change (cDevices s0) with 0%nat.
  set (c := count_effect 0 devs s0).
  assert (Hc : cDevices c = length devs) by (unfold c; by rewrite cDevices_count_effect).
  destruct (count_effect_frame devs 0%nat s0) as (Hh & Ho & Hp & Hr & He). fold c in Hh, Ho, Hp, Hr, He.
  unfold CoTaskMemAlloc, Zero. rewrite Ha, Hh, Hc. cbn [heap s0 entry length app is_null negb].
  rewrite <- (fill_loop_effect devs g devs 0%nat (S (length devs)) (allocated g devs));
    [| done | lia | apply array_ready_allocated].
  f_equal. apply state_ext; run; try done.
  - by rewrite slots_of_bytes.
Qed.

Lemma guid_effect_frame k g s :
  pResult (guid_effect k g s) = pResult s ∧ cDevices (guid_effect k g s) = cDevices s ∧
  hr (guid_effect k g s) = hr s.
Proof.
  unfold guid_effect. destruct (heap s !! result_block s) as [[]|]; try done.
  by destruct (_ <? _)%nat.
Qed.

Lemma fill_effect_frame g devs : ∀ k s,
  pResult (fill_effect W g k devs s) = pResult s ∧
  cDevices (fill_effect W g k devs s) = cDevices s.
Proof.
  induction devs as [|dev rest IH]; intros k s; cbn [fill_effect];
    destruct (hr s =? 0); try done.
  - cbn. by destruct (guid_effect_frame k g s) as (-> & -> & _).
  - destruct (IH (S k) (interfaces_effect W k 0 dev
                  (log (EvEnumDeviceInfo k true) (guid_effect k g s)))) as [-> ->].
    rewrite pResult_interfaces_effect, cDevices_interfaces_effect. cbn.
    by destruct (guid_effect_frame k g s) as (-> & -> & _).
Qed.

(** The session could not be opened. *)
Lemma EnumerateUSBDevices_not_opened (g : GUID) (e : Z) :
  ClassDevs W g = inl e →
  EnumerateUSBDevices W g
  = (Returned true 0 nullptr,
     mkState [] [EvGetClassDevs g false] [] (e mod 2 ^ 32) nullptr S_OK 0 (e mod 2 ^ 32)).
Proof.
  intros Ho. unfold EnumerateUSBDevices, EnumerateUSBDevices_M, SetupDiGetClassDevsW.
  rewrite Ho. reflexivity.
Qed.

(** The session was opened and the array allocated. *)
Lemma EnumerateUSBDevices_completed (g : GUID) (devs : HDEVINFO) :
  ClassDevs W g = inr devs → AllocOk W SiteResult = true →
  EnumerateUSBDevices W g
  = (Returned (hr (completed W g devs) =? 0) (length devs) (Ptr 0), completed W g devs).
Proof.
  intros Ho Ha. unfold EnumerateUSBDevices, EnumerateUSBDevices_M, SetupDiGetClassDevsW.
  rewrite Ho. unfold_M. rewrite (enumerate_effect devs g Ha).
  unfold SetupDiDestroyDeviceInfoList. unfold_M.
  fold (completed W g devs).
  assert (Hp : pResult (completed W g devs) = Ptr 0)
    by (unfold completed; cbn; by destruct (fill_effect_frame g devs 0%nat (allocated g devs)) as [-> _]).
  assert (Hc : cDevices (completed W g devs) = length devs)
    by (unfold completed; cbn; by destruct (fill_effect_frame g devs 0%nat (allocated g devs)) as [_ ->]).
  rewrite Hp. cbn [is_null]. rewrite Hc. reflexivity.
Qed.

(** The session was opened and the array could not be allocated. *)
Lemma EnumerateUSBDevices_not_allocated (g : GUID) (devs : HDEVINFO) :
  ClassDevs W g = inr devs → AllocOk W SiteResult = false →
  EnumerateUSBDevices W g
  = match devs with
    | [] => (Returned true 0 nullptr, set_cDevices 0 (not_allocated g devs))
    | _ :: _ => (Unwound, not_allocated g devs)
    end.
Proof.
  intros Ho Ha. unfold EnumerateUSBDevices, EnumerateUSBDevices_M, SetupDiGetClassDevsW.
  rewrite Ho. unfold_M. unfold enumerate. unfold_M.
  set (s0 := set_cDevices 0 (log (EvGetClassDevs g true) entry)).
  rewrite (count_loop_effect devs devs (S (length devs)) s0) by (done || lia).
  change (cDevices s0) with 0%nat.
  set (c := count_effect 0 devs s0).
  assert (Hc : cDevices c = length devs) by (unfold c; by rewrite cDevices_count_effect).
  destruct (count_effect_frame devs 0%nat s0) as (Hh & Hv & Hp & Hr & He).
  fold c in Hh, Hv, Hp, Hr, He.
  unfold CoTaskMemAlloc, Zero, SetupDiDestroyDeviceInfoList. rewrite Ha, Hc. unfold_M.
  destruct devs as [|dev devs]; cbn [length Nat.eqb negb is_null].
  - change (Z.of_nat 0 * sizeof_EnumeratedUSBDevice =? 0) with true. run.
    f_equal; try (apply state_ext; run; done).
  - replace (Z.of_nat (S (length devs)) * sizeof_EnumeratedUSBDevice =? 0) with false
      by (symmetry; apply Z.eqb_neq; unfold sizeof_EnumeratedUSBDevice; lia).
    f_equal; try (apply state_ext; run; done).
Qed.

End Bridge.

(** ** Session open failure, empty device set, array allocation failure *)

(** The loop bounds handed to the loops are never exhausted: the
    function returns or is left by an exception. *)
Lemma EnumerateUSBDevices_terminates (W : World) (g : GUID) :
  fst (EnumerateUSBDevices W g) ≠ OutOfFuel.
Proof.
  destruct (ClassDevs W g) as [e|devs] eqn:Ho.
  - by rewrite (EnumerateUSBDevices_not_opened W g e Ho).
  - destruct (AllocOk W SiteResult) eqn:Ha.
    + by rewrite (EnumerateUSBDevices_completed W g devs Ho Ha).
    + rewrite (EnumerateUSBDevices_not_allocated W g devs Ho Ha). by destruct devs.
Qed.

(** C1 (code evaluated): when SetupDiGetClassDevsW returns
    INVALID_HANDLE_VALUE the function stores the last error in [err],
    leaves [hr] at S_OK and returns TRUE, with a device count of 0 and
    no array. *)
Theorem open_failure_returns_true (W : World) (g : GUID) (e : Z) :
  ClassDevs W g = inl e →
  fst (EnumerateUSBDevices W g) = Returned true 0 nullptr ∧
  trace (snd (EnumerateUSBDevices W g)) = [EvGetClassDevs g false] ∧
  hr (snd (EnumerateUSBDevices W g)) = S_OK ∧
  err (snd (EnumerateUSBDevices W g)) = e mod 2 ^ 32.
Proof.
  intros Ho. by rewrite (EnumerateUSBDevices_not_opened W g e Ho).
Qed.

Lemma open_failure_returns_true_witness :
  fst (EnumerateUSBDevices world_closed 1) = Returned true 0 nullptr ∧
  trace (snd (EnumerateUSBDevices world_closed 1)) = [EvGetClassDevs 1 false] ∧
  hr (snd (EnumerateUSBDevices world_closed 1)) = S_OK ∧
  err (snd (EnumerateUSBDevices world_closed 1)) = 5 mod 2 ^ 32.
Proof. apply (open_failure_returns_true world_closed 1 5). reflexivity. Defined.

(** C9: a class identifier that matches zero devices yields
    success = true, a device count of 0 and an empty sequence. *)
Theorem zero_devices (W : World) (g : GUID) :
  ClassDevs W g = inr [] →
  ∃ p, fst (EnumerateUSBDevices W g) = Returned true 0 p ∧
       returned_devices (EnumerateUSBDevices W g) = Some [].
Proof.
  intros Ho. destruct (AllocOk W SiteResult) eqn:Ha.
  - rewrite (EnumerateUSBDevices_completed W g [] Ho Ha). by exists (Ptr 0).
  - rewrite (EnumerateUSBDevices_not_allocated W g [] Ho Ha). by exists nullptr.
Qed.

Lemma zero_devices_witness :
  ∃ p, fst (EnumerateUSBDevices (world_of [] all_alloc all_open) 1) = Returned true 0 p ∧
       returned_devices (EnumerateUSBDevices (world_of [] all_alloc all_open) 1) = Some [].
Proof. apply (zero_devices (world_of [] all_alloc all_open) 1). reflexivity. Defined.

(** C6 (code evaluated): when the array allocation fails after a
    non-zero count, Zero(pResult, cbResult) writes through the null
    pointer before pResult is tested; the access violation unwinds
    through the __finally, which destroys the session, and leaves the
    function: nothing is returned. *)
Theorem array_allocation_failure_unwinds (W : World) (g : GUID) (devs : HDEVINFO) :
  ClassDevs W g = inr devs → devs ≠ [] → AllocOk W SiteResult = false →
  fst (EnumerateUSBDevices W g) = Unwound ∧
  ∃ t, trace (snd (EnumerateUSBDevices W g))
       = EvDestroy
           :: EvZero nullptr (Z.of_nat (length devs) * sizeof_EnumeratedUSBDevice)
           :: EvAlloc SiteResult (Z.of_nat (length devs) * sizeof_EnumeratedUSBDevice) nullptr
           :: t.
Proof.
  intros Ho Hne Ha. rewrite (EnumerateUSBDevices_not_allocated W g devs Ho Ha).
  destruct devs as [|dev devs]; [done|]. split; [done|]. eexists. reflexivity.
Qed.

Lemma array_allocation_failure_unwinds_witness :
  fst (EnumerateUSBDevices (world_of [[one_interface path_a]] no_array all_open) 1) = Unwound ∧
  ∃ t, trace (snd (EnumerateUSBDevices (world_of [[one_interface path_a]] no_array all_open) 1))
       = EvDestroy :: EvZero nullptr (Z.of_nat 1 * sizeof_EnumeratedUSBDevice)
           :: EvAlloc SiteResult (Z.of_nat 1 * sizeof_EnumeratedUSBDevice) nullptr :: t.
Proof.
  apply (array_allocation_failure_unwinds
           (world_of [[one_interface path_a]] no_array all_open) 1 [[one_interface path_a]]);
    [reflexivity | discriminate | reflexivity].
Defined.

(** ** The success flag *)

Lemma to_int32_zero (x : Z) : to_int32 x = 0 ↔ x mod 2 ^ 32 = 0.
Proof.
  unfold to_int32. pose proof (Z.mod_pos_bound x (2 ^ 32) eq_refl).
  destruct (x mod 2 ^ 32 <? 2 ^ 31) eqn:E; [done|].
  apply Z.ltb_ge in E. lia.
Qed.

Lemma E_OUTOFMEMORY_nonzero : E_OUTOFMEMORY ≠ 0.
Proof. done. Qed.

Lemma HRESULT_FROM_WIN32_nonzero (x : Z) :
  x mod 2 ^ 32 ≠ 0 → HRESULT_FROM_WIN32 (x mod 2 ^ 32) ≠ 0.
Proof.
  intros Hx. unfold HRESULT_FROM_WIN32.
  destruct (to_int32 (x mod 2 ^ 32) <=? 0) eqn:E.
  - rewrite to_int32_zero, Z.mod_mod by done. done.
  - rewrite to_int32_zero. intros Hz.
    assert (Hb : Z.testbit (Z.lor (Z.lor (Z.land (x mod 2 ^ 32) 65535)
                               (Z.shiftl FACILITY_WIN32 16)) 2147483648 mod 2 ^ 32) 31 = true).
    { rewrite Z.mod_pow2_bits_low by lia. rewrite !Z.lor_spec.
      apply orb_true_iff. by right. }
    rewrite Hz in Hb. by rewrite Z.bits_0 in Hb.
Qed.

Section Success.

Variable W : World.

Lemma hr_body_clean i j itf s :
  clean_interface W i j itf = true → hr (body_effect W i j itf s) = hr s.
Proof.
  unfold clean_interface, body_effect. by destruct (resolution W i j itf).
Qed.

Lemma resolution_DetailFailed i j itf e :
  resolution W i j itf = DetailFailed e → detail itf = inl e.
Proof.
  unfold resolution. destruct (AllocOk W (SiteDetail i j)); [|done].
  destruct (detail itf) as [e'|path]; [congruence|].
  destruct (AllocOk W (SitePath i j)); [|done]. by destruct (OpenPath W path).
Qed.

Lemma resolution_OpenFailed i j itf path e :
  resolution W i j itf = OpenFailed path e →
  AllocOk W (SiteDetail i j) = true ∧ detail itf = inr path ∧
  AllocOk W (SitePath i j) = true ∧ OpenPath W path = Some e.
Proof.
  unfold resolution. destruct (AllocOk W (SiteDetail i j)); [|done].
  destruct (detail itf) as [e'|path']; [done|].
  destruct (AllocOk W (SitePath i j)); [|done].
  destruct (OpenPath W path') eqn:Ho; [|done]. intros [= -> ->]. done.
Qed.

Lemma resolution_Opened i j itf path :
  resolution W i j itf = Opened path ↔
  AllocOk W (SiteDetail i j) = true ∧ detail itf = inr path ∧
  AllocOk W (SitePath i j) = true ∧ OpenPath W path = None.
Proof.
  unfold resolution. split.
  - destruct (AllocOk W (SiteDetail i j)); [|done].
    destruct (detail itf) as [e'|path']; [done|].
    destruct (AllocOk W (SitePath i j)); [|done].
    destruct (OpenPath W path') eqn:Ho; [done|]. intros [= ->]. done.
  - intros (-> & -> & -> & ->). done.
Qed.

Lemma hr_body_failure i j itf s :
  open_errors_nonzero W → detail_error_nonzero itf →
  clean_interface W i j itf = false → hr (body_effect W i j itf s) ≠ 0.
Proof.
  intros Ho Hd. unfold clean_interface, body_effect.
  destruct (resolution W i j itf) as [|e|path|path e|path] eqn:Hr; intros Hc; cbn;
    try done.
  - apply HRESULT_FROM_WIN32_nonzero, Hd. by eapply resolution_DetailFailed.
  - apply HRESULT_FROM_WIN32_nonzero. apply resolution_OpenFailed in Hr as (_ & _ & _ & Hr).
    by eapply Ho.
Qed.

Lemma hr_body_nonzero i j itf s :
  open_errors_nonzero W → detail_error_nonzero itf →
  hr s ≠ 0 → hr (body_effect W i j itf s) ≠ 0.
Proof.
  intros Ho Hd Hs. destruct (clean_interface W i j itf) eqn:Hc.
  - by rewrite hr_body_clean.
  - by apply hr_body_failure.
Qed.

Lemma hr_interfaces_clean i ifs : ∀ j s,
  clean_from W i j ifs = true → hr (interfaces_effect W i j ifs s) = hr s.
Proof.
  induction ifs as [|itf rest IH]; intros j s Hc; cbn in *; [done|].
  apply andb_true_iff in Hc as [Hc1 Hc2]. rewrite IH by done. by rewrite hr_body_clean.
Qed.

Lemma hr_interfaces_nonzero i ifs : ∀ j s,
  open_errors_nonzero W → Forall detail_error_nonzero ifs →
  hr s ≠ 0 → hr (interfaces_effect W i j ifs s) ≠ 0.
Proof.
  induction ifs as [|itf rest IH]; intros j s Ho Hd Hs; cbn; [done|].
  apply Forall_cons in Hd as [Hd1 Hd2]. apply IH; try done. by apply hr_body_nonzero.
Qed.

Lemma hr_interfaces_failure i ifs : ∀ j s,
  open_errors_nonzero W → Forall detail_error_nonzero ifs →
  clean_from W i j ifs = false → hr (interfaces_effect W i j ifs s) ≠ 0.
Proof.
  induction ifs as [|itf rest IH]; intros j s Ho Hd Hc; cbn in *; [done|].
  apply Forall_cons in Hd as [Hd1 Hd2].
  destruct (clean_interface W i j itf) eqn:Hc1; cbn in Hc.
  - by apply IH.
  - apply hr_interfaces_nonzero; try done. by apply hr_body_failure.
Qed.

Lemma fill_effect_stopped g k devs s : hr s ≠ 0 → fill_effect W g k devs s = s.
Proof.
  intros Hs. apply Z.eqb_neq in Hs. destruct devs; cbn; by rewrite Hs.
Qed.

Lemma hr_fill_clean g devs : ∀ k s,
  clean_devices W k devs = true → hr s = 0 → hr (fill_effect W g k devs s) = 0.
Proof.
  induction devs as [|dev rest IH]; intros k s Hc Hs; cbn [fill_effect];
    rewrite Hs; cbn [Z.eqb].
  - cbn. by destruct (guid_effect_frame k g s) as (_ & _ & ->).
  - cbn in Hc. apply andb_true_iff in Hc as [Hc1 Hc2]. apply IH; [done|].
    rewrite hr_interfaces_clean by done. cbn.
    by destruct (guid_effect_frame k g s) as (_ & _ & ->).
Qed.

Lemma hr_fill_failure g devs : ∀ k s,
  open_errors_nonzero W → Forall (Forall detail_error_nonzero) devs →
  clean_devices W k devs = false → hr (fill_effect W g k devs s) ≠ 0.
Proof.
  induction devs as [|dev rest IH]; intros k s Ho Hd Hc; [done|].
  destruct (decide (hr s = 0)) as [Hs|Hs]; [|by rewrite fill_effect_stopped].
  cbn [fill_effect]. rewrite Hs. cbn [Z.eqb].
  apply Forall_cons in Hd as [Hd1 Hd2]. cbn in Hc.
  destruct (clean_device W k dev) eqn:Hc1; cbn in Hc.
  - by apply IH.
  - rewrite fill_effect_stopped; by apply hr_interfaces_failure.
Qed.

(** Under the Win32 promise the call succeeds exactly when every
    interface of every device is resolved, copied and opened. *)
Lemma success_iff_clean (g : GUID) (devs : HDEVINFO) :
  errors_nonzero W devs →
  (hr (completed W g devs) =? 0) = clean_devices W 0 devs.
Proof.
  intros [Ho Hd]. unfold completed. cbn [hr log].
  destruct (clean_devices W 0 devs) eqn:Hc.
  - apply Z.eqb_eq. by apply hr_fill_clean.
  - apply Z.eqb_neq. by apply hr_fill_failure.
Qed.

Lemma clean_from_lookup i ifs : ∀ j k itf,
  clean_from W i j ifs = true → ifs !! k = Some itf →
  clean_interface W i (j + k) itf = true.
Proof.
  induction ifs as [|x rest IH]; intros j k itf Hc Hk; [done|].
  cbn in Hc. apply andb_true_iff in Hc as [Hc1 Hc2].
  destruct k as [|k]; cbn in Hk.
  - injection Hk as ->. by rewrite Nat.add_0_r.
  - rewrite <- Nat.add_succ_comm. by apply IH.
Qed.

Lemma clean_devices_lookup devs : ∀ k i dev,
  clean_devices W k devs = true → devs !! i = Some dev →
  clean_device W (k + i) dev = true.
Proof.
  induction devs as [|x rest IH]; intros k i dev Hc Hi; [done|].
  cbn in Hc. apply andb_true_iff in Hc as [Hc1 Hc2].
  destruct i as [|i]; cbn in Hi.
  - injection Hi as ->. by rewrite Nat.add_0_r.
  - rewrite <- Nat.add_succ_comm. by apply IH.
Qed.

End Success.

(** C7: when CreateFile fails on an interface whose path was resolved
    and copied, the function returns success = false; no enumeration,
    allocation or resolution failure is involved. *)
Theorem open_failure_clears_success (W : World) (g : GUID) (devs : HDEVINFO)
    (i j : nat) (dev : Device) (itf : DeviceInterface) (path : wstring) (e : Z) :
  ClassDevs W g = inr devs → AllocOk W SiteResult = true →
  errors_nonzero W devs →
  devs !! i = Some dev → dev !! j = Some itf →
  AllocOk W (SiteDetail i j) = true → detail itf = inr path →
  AllocOk W (SitePath i j) = true → OpenPath W path = Some e →
  fst (EnumerateUSBDevices W g) = Returned false (length devs) (Ptr 0).
Proof.
  intros Ho Ha He Hi Hj Hd Hp Hc Hf.
  rewrite (EnumerateUSBDevices_completed W g devs Ho Ha). cbn [fst].
  rewrite (success_iff_clean W g devs He).
  destruct (clean_devices W 0 devs) eqn:Hcl; [|done].
  pose proof (clean_devices_lookup W devs 0 i dev Hcl Hi) as Hdev.
  pose proof (clean_from_lookup W i dev 0 j itf Hdev Hj) as Hitf.
  unfold clean_interface, resolution in Hitf. cbn in Hitf.
  by rewrite Hd, Hp, Hc, Hf in Hitf.
Qed.

(** ** The contents of the output array *)

Section Slots.

Variable W : World.

Lemma alter_beyond {A} (f : A → A) (l : list A) (i : nat) :
  (length l ≤ i)%nat → alter f i l = l.
Proof.
  intros Hi. apply list_eq. intros k. destruct (decide (i = k)) as [->|Hne].
  - rewrite list_lookup_alter_eq. by rewrite (lookup_ge_None_2 l k).
  - by rewrite list_lookup_alter_ne.
Qed.

Lemma the_slots_ready n s :
  array_ready n s → heap s !! result_block s = Some (BResult (the_slots s)) ∧
                    length (the_slots s) = n.
Proof.
  intros Hs. destruct (array_ready_block n s Hs) as (slots & Hb & Hn).
  unfold the_slots. by rewrite Hb.
Qed.

Lemma result_block_lt n s : array_ready n s → (result_block s < length (heap s))%nat.
Proof.
  intros Hs. destruct (the_slots_ready n s Hs) as [Hb _]. eapply lookup_lt_Some; eauto.
Qed.

(** *** One interface *)

Lemma the_slots_body n i j itf s :
  array_ready n s →
  the_slots (body_effect W i j itf s)
  = match stored W i j itf s with
    | None => the_slots s
    | Some p => alter (set_slot_path p) i (the_slots s)
    end.
Proof.
  intros Hs. destruct (the_slots_ready n s Hs) as [Hb _].
  pose proof (result_block_lt n s Hs) as Hlt.
  unfold the_slots at 1. unfold stored, body_effect, result_block at 1.
  destruct (resolution W i j itf); cbn [heap pResult]; fold (result_block s).
  1,2: by rewrite ?lookup_app_l, Hb by done.
  all: by rewrite lookup_app_l, (poke_lookup_eq _ _ _ _ _ Hb) by (by rewrite length_poke).
Qed.

Lemma string_at_poke b i f hp q w :
  hp !! q = Some (BString w) → poke b i f hp !! q = Some (BString w).
Proof.
  intros Hq. destruct (decide (b = q)) as [->|Hne].
  - unfold poke. by rewrite Hq.
  - by rewrite poke_lookup_ne.
Qed.

Lemma string_at_body i j itf s p w :
  string_at s p = Some w → string_at (body_effect W i j itf s) p = Some w.
Proof.
  destruct p as [|q]; [done|]. unfold string_at.
  destruct (heap s !! q) as [[]|] eqn:Hq; try done. intros [= ->].
  unfold body_effect. destruct (resolution W i j itf); cbn [heap];
    rewrite ?Hq; try done.
  1: by rewrite (lookup_app_l_Some _ _ _ _ Hq).
  all: by rewrite (lookup_app_l_Some _ _ _ (BString w)) by (by apply string_at_poke).
Qed.

Lemma string_at_stored i j itf s path :
  (resolution W i j itf = Opened path ∨ ∃ e, resolution W i j itf = OpenFailed path e) →
  string_at (body_effect W i j itf s) (Ptr (S (length (heap s)))) = Some path.
Proof.
  intros Hr. unfold string_at, body_effect.
  destruct Hr as [->|[e ->]]; cbn [heap];
    by rewrite lookup_app_r, length_poke, Nat.sub_succ_l, Nat.sub_diag by (rewrite ?length_poke; lia).
Qed.

Lemma slot_at_body_ne n i j itf s k :
  array_ready n s → i ≠ k → slot_at (body_effect W i j itf s) k = slot_at s k.
Proof.
  intros Hs Hne. unfold slot_at. rewrite (the_slots_body n) by done.
  destruct (stored W i j itf s); [|done]. by apply list_lookup_alter_ne.
Qed.

Lemma slot_at_body_eq n i j itf s :
  array_ready n s →
  slot_at (body_effect W i j itf s) i
  = match stored W i j itf s with
    | None => slot_at s i
    | Some p => set_slot_path p <$> slot_at s i
    end.
Proof.
  intros Hs. unfold slot_at. rewrite (the_slots_body n) by done.
  destruct (stored W i j itf s); [|done]. by apply list_lookup_alter_eq.
Qed.

(** *** The interfaces of one device *)

Lemma slot_at_interfaces_ne n i ifs k : ∀ j s,
  array_ready n s → i ≠ k → slot_at (interfaces_effect W i j ifs s) k = slot_at s k.
Proof.
  induction ifs as [|itf rest IH]; intros j s Hs Hne; cbn [interfaces_effect]; [done|].
  rewrite IH by (done || by apply array_ready_body).
  by rewrite (slot_at_body_ne n).
Qed.

Lemma string_at_interfaces i ifs p w : ∀ j s,
  string_at s p = Some w → string_at (interfaces_effect W i j ifs s) p = Some w.
Proof.
  induction ifs as [|itf rest IH]; intros j s Hp; cbn [interfaces_effect]; [done|].
  by apply IH, string_at_body.
Qed.

Lemma holds_body i j itf s p v : holds s p v → holds (body_effect W i j itf s) p v.
Proof. destruct v; [apply string_at_body | done]. Qed.

Lemma last_store_Some i ifs : ∀ j v, is_Some (last_store W i j ifs (Some v)).
Proof.
  induction ifs as [|itf rest IH]; intros j v; cbn [last_store]; [done|].
  destruct (resolution W i j itf); apply IH.
Qed.

Lemma slot_at_interfaces n i ifs : ∀ j s acc d,
  array_ready n s → slot_at s i = Some d →
  (∀ v, acc = Some v → holds s (wszInterfacePath d) v) →
  ∃ d', slot_at (interfaces_effect W i j ifs s) i = Some d' ∧
        guidInterface d' = guidInterface d ∧
        match last_store W i j ifs acc with
        | None => wszInterfacePath d' = wszInterfacePath d
        | Some v => holds (interfaces_effect W i j ifs s) (wszInterfacePath d') v
        end.
Proof.
  induction ifs as [|itf rest IH]; intros j s acc d Hs Hd Hacc;
    cbn [interfaces_effect last_store].
  - exists d. split_and!; [done | done |]. destruct acc as [v|]; [|done].
    by apply (Hacc v).
  - set (s0 := log (EvEnumDeviceInterfaces i j true) s).
    assert (Hs0 : array_ready n s0) by done.
    pose proof (slot_at_body_eq n i j itf s0 Hs0) as Hb.
    change (slot_at s0 i) with (slot_at s i) in Hb. rewrite Hd in Hb.
    unfold stored in Hb.
    destruct (resolution W i j itf) as [|e|path|path e|path] eqn:Hr; cbn in Hb.
    1,2: destruct (IH (S j) (body_effect W i j itf s0) acc d) as (d' & ? & ? & ?);
         [by apply array_ready_body | done
         | intros v Hv; by apply holds_body, (Hacc v) | by exists d'].
    + destruct (IH (S j) (body_effect W i j itf s0) (Some None) (set_slot_path nullptr d))
        as (d' & ? & ? & ?);
        [by apply array_ready_body | done | by intros v [= <-] |].
      exists d'. destruct (last_store_Some i rest (S j) None) as [v Hv].
      rewrite Hv in *. done.
    + destruct (IH (S j) (body_effect W i j itf s0) (Some (Some path))
                  (set_slot_path (Ptr (S (length (heap s0)))) d))
        as (d' & ? & ? & ?);
        [by apply array_ready_body | done | |].
      { intros v [= <-]. apply string_at_stored. right. by exists e. }
      exists d'. destruct (last_store_Some i rest (S j) (Some path)) as [v Hv].
      rewrite Hv in *. done.
    + destruct (IH (S j) (body_effect W i j itf s0) (Some (Some path))
                  (set_slot_path (Ptr (S (length (heap s0)))) d))
        as (d' & ? & ? & ?);
        [by apply array_ready_body | done | |].
      { intros v [= <-]. apply string_at_stored. by left. }
      exists d'. destruct (last_store_Some i rest (S j) (Some path)) as [v Hv].
      rewrite Hv in *. done.
Qed.

(** *** The devices *)

Lemma the_slots_guid n k g s :
  array_ready n s → the_slots (guid_effect k g s) = alter (set_slot_guid g) k (the_slots s).
Proof.
  intros Hs. destruct (the_slots_ready n s Hs) as [Hb Hn].
  destruct (decide (k < length (the_slots s))%nat) as [Hk|Hk].
  - rewrite (guid_effect_inside k g s _ Hb Hk). unfold the_slots at 1.
    change (result_block (log _ _)) with (result_block s). cbn [heap log set_heap].
    by rewrite (poke_lookup_eq _ _ _ _ _ Hb).
  - rewrite (guid_effect_outside k g s _ Hb) by lia.
    by rewrite alter_beyond by lia.
Qed.

Lemma slot_at_guid_ne n k k' g s :
  array_ready n s → k ≠ k' → slot_at (guid_effect k g s) k' = slot_at s k'.
Proof.
  intros Hs Hne. unfold slot_at. rewrite (the_slots_guid n) by done.
  by apply list_lookup_alter_ne.
Qed.

Lemma slot_at_guid_eq n k g s :
  array_ready n s → slot_at (guid_effect k g s) k = set_slot_guid g <$> slot_at s k.
Proof.
  intros Hs. unfold slot_at. rewrite (the_slots_guid n) by done.
  by apply list_lookup_alter_eq.
Qed.

Lemma string_at_guid k g s p w :
  string_at s p = Some w → string_at (guid_effect k g s) p = Some w.
Proof.
  destruct p as [|q]; [done|]. unfold string_at.
  destruct (heap s !! q) as [[]|] eqn:Hq; try done. intros [= ->].
  unfold guid_effect. destruct (heap s !! result_block s) as [[]|]; rewrite ?Hq; try done.
  destruct (_ <? _)%nat; cbn [heap log set_heap add_overrun]; rewrite ?Hq; try done.
  by rewrite (string_at_poke _ _ _ _ _ _ Hq).
Qed.

Lemma array_ready_fill n g devs : ∀ k s,
  array_ready n s → array_ready n (fill_effect W g k devs s).
Proof.
  induction devs as [|dev rest IH]; intros k s Hs; cbn [fill_effect];
    destruct (hr s =? 0); try done.
  - by apply array_ready_log, array_ready_guid.
  - by apply IH, array_ready_interfaces, array_ready_log, array_ready_guid.
Qed.

Lemma slot_at_fill_lt n g devs k' : ∀ k s,
  array_ready n s → (k' < k)%nat → slot_at (fill_effect W g k devs s) k' = slot_at s k'.
Proof.
  induction devs as [|dev rest IH]; intros k s Hs Hlt; cbn [fill_effect];
    destruct (hr s =? 0); try done.
  - change (slot_at (no_more_items _ ?x) k') with (slot_at x k').
    apply (slot_at_guid_ne n); [done | lia].
  - rewrite IH; [| by apply array_ready_interfaces, array_ready_log, array_ready_guid | lia].
    rewrite (slot_at_interfaces_ne n);
      [| by apply array_ready_log, array_ready_guid | lia].
    change (slot_at (log _ ?x) k') with (slot_at x k').
    apply (slot_at_guid_ne n); [done | lia].
Qed.

Lemma string_at_fill g devs p w : ∀ k s,
  string_at s p = Some w → string_at (fill_effect W g k devs s) p = Some w.
Proof.
  induction devs as [|dev rest IH]; intros k s Hp; cbn [fill_effect];
    destruct (hr s =? 0); try done.
  - by apply (string_at_guid k g s).
  - apply IH, string_at_interfaces. by apply (string_at_guid k g s).
Qed.

Lemma holds_fill g devs k s p v :
  holds s p v → holds (fill_effect W g k devs s) p v.
Proof. destruct v; [apply string_at_fill | done]. Qed.

(** The slot of device [k], right after the fill pass dealt with it. *)
Lemma slot_at_device n g k dev s :
  array_ready n s → slot_at s k = Some zero_slot →
  let s' := interfaces_effect W k 0 dev (log (EvEnumDeviceInfo k true) (guid_effect k g s)) in
  ∃ d, slot_at s' k = Some d ∧ filled W g k dev s' d.
Proof.
  intros Hs Hz s'.
  set (s1 := log (EvEnumDeviceInfo k true) (guid_effect k g s)).
  assert (Hs1 : array_ready n s1) by (by apply array_ready_log, array_ready_guid).
  assert (Hd1 : slot_at s1 k = Some (set_slot_guid g zero_slot)).
  { change (slot_at s1 k) with (slot_at (guid_effect k g s) k).
    by rewrite (slot_at_guid_eq n), Hz. }
  destruct (slot_at_interfaces n k dev 0%nat s1 None _ Hs1 Hd1) as (d & Hd & Hg & Hp);
    [done|].
  exists d. split; [done|]. split; [done|]. done.
Qed.

(** The slot of device [k + i] when the fill pass, started at device
    [k], is over: untouched, or as the pass left it. *)
Lemma slot_at_fill n g : ∀ devs i k s dev,
  array_ready n s → devs !! i = Some dev → slot_at s (k + i) = Some zero_slot →
  ∃ d, slot_at (fill_effect W g k devs s) (k + i) = Some d ∧
       (d = zero_slot ∨ filled W g (k + i) dev (fill_effect W g k devs s) d) ∧
       (hr s = 0 → clean_devices W k (take i devs) = true →
        filled W g (k + i) dev (fill_effect W g k devs s) d).
Proof.
  induction devs as [|dev0 rest IH]; intros i k s dev Hs Hi Hz; [done|].
  destruct (decide (hr s = 0)) as [Hr|Hr].
  2: { rewrite fill_effect_stopped by done. exists zero_slot. split_and!; try done. by left. }
  cbn [fill_effect]. rewrite Hr. cbn [Z.eqb].
  set (s1 := log (EvEnumDeviceInfo k true) (guid_effect k g s)).
  assert (Hs1 : array_ready n s1) by (by apply array_ready_log, array_ready_guid).
  set (s2 := interfaces_effect W k 0 dev0 s1).
  assert (Hs2 : array_ready n s2) by (by apply array_ready_interfaces).
  destruct i as [|i]; cbn in Hi.
  - injection Hi as ->. rewrite Nat.add_0_r in *.
    destruct (slot_at_device n g k dev s Hs Hz) as (d & Hd & Hf). fold s1 s2 in Hd, Hf.
    exists d. rewrite (slot_at_fill_lt n) by (done || lia).
    assert (Hf' : filled W g k dev (fill_effect W g (S k) rest s2) d).
    { destruct Hf as [Hg Hp]. split; [done|].
      destruct (last_store W k 0 dev None); [by apply holds_fill | done]. }
    split_and!; [done | by right | done].
  - assert (Hz2 : slot_at s2 (S k + i) = Some zero_slot).
    { unfold s2. rewrite (slot_at_interfaces_ne n) by (done || lia).
      change (slot_at s1 (S k + i)) with (slot_at (guid_effect k g s) (S k + i)).
      rewrite (slot_at_guid_ne n) by (done || lia).
      by rewrite <- Nat.add_succ_comm in Hz. }
    destruct (IH i (S k) s2 dev Hs2 Hi Hz2) as (d & Hd & Hor & Hre).
    rewrite <- Nat.add_succ_comm. exists d. split_and!; [done | done |].
    intros _ Hc. cbn in Hc. apply andb_true_iff in Hc as [Hc1 Hc2].
    apply Hre; [|done].
    unfold s2. rewrite hr_interfaces_clean by done. cbn.
    by destruct (guid_effect_frame k g s) as (_ & _ & ->).
Qed.

End Slots.

(** ** The returned array *)

Section Returned.

Variable W : World.

Lemma array_ready_completed g devs : array_ready (length devs) (completed W g devs).
Proof. by apply array_ready_log, array_ready_fill, array_ready_allocated. Qed.

Lemma result_block_completed g devs : result_block (completed W g devs) = 0%nat.
Proof.
  unfold result_block, completed. cbn [pResult log].
  by destruct (fill_effect_frame W g devs 0%nat (allocated g devs)) as [-> _].
Qed.

Lemma returned_devices_completed (g : GUID) (devs : HDEVINFO) :
  ClassDevs W g = inr devs → AllocOk W SiteResult = true →
  returned_devices (EnumerateUSBDevices W g) = Some (the_slots (completed W g devs)) ∧
  length (the_slots (completed W g devs)) = length devs.
Proof.
  intros Ho Ha. rewrite (EnumerateUSBDevices_completed W g devs Ho Ha).
  destruct (the_slots_ready _ _ (array_ready_completed g devs)) as [Hb Hn].
  rewrite result_block_completed in Hb.
  unfold returned_devices. cbn [fst snd]. rewrite Hb.
  by rewrite take_ge by lia.
Qed.

Lemma slot_at_allocated g devs i :
  (i < length devs)%nat → slot_at (allocated g devs) i = Some zero_slot.
Proof. intros Hi. unfold slot_at, the_slots. cbn. by apply lookup_replicate_2. Qed.

(** The slot of device [i] when the call returns. *)
Lemma slot_at_completed (g : GUID) (devs : HDEVINFO) (i : nat) (dev : Device) :
  devs !! i = Some dev →
  ∃ d, slot_at (completed W g devs) i = Some d ∧
       (d = zero_slot ∨ filled W g i dev (completed W g devs) d) ∧
       (reaches W devs i = true → filled W g i dev (completed W g devs) d).
Proof.
  intros Hi.
  destruct (slot_at_fill W (length devs) g devs i 0%nat (allocated g devs) dev)
    as (d & Hd & Hor & Hre);
    [apply array_ready_allocated | done
     | apply slot_at_allocated; by eapply lookup_lt_Some |].
  exists d. cbn [Nat.add] in *. split_and!; [done | done |].
  intros Hr. by apply Hre.
Qed.

(** A world in which every query and every allocation succeeds. *)
Lemma all_succeed_clean (devs : HDEVINFO) :
  (∀ site, AllocOk W site = true) → (∀ path, OpenPath W path = None) →
  Forall (Forall (λ itf, is_Some (maybe inr (detail itf)))) devs →
  ∀ k, clean_devices W k devs = true.
Proof.
  intros Ha Ho Hd. induction Hd as [|dev rest Hdev _ IH]; intros k; cbn; [done|].
  rewrite IH, andb_true_r. unfold clean_device. generalize 0%nat.
  induction Hdev as [|itf ifs [path Hitf] _ IHd]; intros j; cbn; [done|].
  rewrite IHd, andb_true_r. unfold clean_interface, resolution.
  rewrite !Ha. destruct (detail itf) as [e|p]; [done|]. by rewrite Ho.
Qed.

End Returned.

(** C4 (as the code has it): a device that exposes no matching
    interface still has its slot in the returned array, with a null
    path; the class identifier of the slot is the requested one when the
    fill pass reaches the device, since the pass stores it before it
    looks for interfaces, and zero otherwise. *)
Theorem no_interface_slot (W : World) (g : GUID) (devs : HDEVINFO) (i : nat) :
  ClassDevs W g = inr devs → AllocOk W SiteResult = true →
  devs !! i = Some [] →
  ∃ slots d,
    returned_devices (EnumerateUSBDevices W g) = Some slots ∧
    slots !! i = Some d ∧
    wszInterfacePath d = nullptr ∧
    (guidInterface d = g ∨ guidInterface d = GUID_NULL) ∧
    (reaches W devs i = true → guidInterface d = g).
Proof.
  intros Ho Ha Hi.
  destruct (returned_devices_completed W g devs Ho Ha) as [Hr _].
  destruct (slot_at_completed W g devs i [] Hi) as (d & Hd & Hor & Hre).
  exists (the_slots (completed W g devs)), d. split_and!; try done.
  - destruct Hor as [->|[_ Hp]]; done.
  - destruct Hor as [->|[Hg _]]; [by right | by left].
  - intros Hreach. by destruct (Hre Hreach).
Qed.

(** C8: with n devices of exactly one matching interface each, and
    every query and allocation succeeding, the function returns
    success = true and n slots; every slot carries the requested class
    identifier and a non-null path, which designates a copy of the device
    path of the interface. *)
Theorem one_interface_each (W : World) (g : GUID) (devs : HDEVINFO) :
  ClassDevs W g = inr devs →
  (∀ site, AllocOk W site = true) → (∀ path, OpenPath W path = None) →
  Forall (λ dev, ∃ itf path, dev = [itf] ∧ detail itf = inr path) devs →
  fst (EnumerateUSBDevices W g) = Returned true (length devs) (Ptr 0) ∧
  ∃ slots,
    returned_devices (EnumerateUSBDevices W g) = Some slots ∧
    length slots = length devs ∧
    ∀ i d, slots !! i = Some d →
      guidInterface d = g ∧ wszInterfacePath d ≠ nullptr ∧
      ∃ itf path, devs !! i = Some [itf] ∧ detail itf = inr path ∧
        string_at (snd (EnumerateUSBDevices W g)) (wszInterfacePath d) = Some path.
Proof.
  intros Ho Ha Hf Hone.
  assert (Hclean : ∀ k, clean_devices W k devs = true).
  { apply all_succeed_clean; try done.
    eapply Forall_impl; [exact Hone|]. intros dev (itf & path & -> & Hd).
    constructor; [|done]. rewrite Hd. by exists path. }
  destruct (returned_devices_completed W g devs Ho (Ha SiteResult)) as [Hr Hn].
  rewrite Hr. rewrite (EnumerateUSBDevices_completed W g devs Ho (Ha SiteResult)).
  cbn [fst snd]. split.
  - f_equal. apply Z.eqb_eq. unfold completed. cbn [hr log].
    by apply hr_fill_clean.
  - exists (the_slots (completed W g devs)). split_and!; [done | done |].
    intros i d Hd.
    assert (Hi : (i < length devs)%nat) by (rewrite <- Hn; by eapply lookup_lt_Some).
    destruct (lookup_lt_is_Some_2 devs i Hi) as [dev Hdev].
    destruct (proj1 (Forall_lookup _ devs) Hone i dev Hdev) as (itf & path & -> & Hdet).
    destruct (slot_at_completed W g devs i [itf] Hdev) as (d' & Hd' & _ & Hre).
    unfold slot_at in Hd'. rewrite Hd in Hd'. injection Hd' as <-.
    destruct Hre as [Hg Hp].
    { unfold reaches. apply all_succeed_clean; try done.
      + apply Forall_take. eapply Forall_impl; [exact Hone|].
        intros dev (itf' & path' & -> & Hd'). constructor; [|done].
        rewrite Hd'. by exists path'. }
    cbn [last_store] in Hp. unfold resolution in Hp. rewrite !Ha, Hdet, Hf in Hp.
    cbn in Hp.
    split_and!; [done | by destruct (wszInterfacePath d) |].
    exists itf, path. done.
Qed.

(** ** The trace *)

Section Trace.

Variable W : World.

Lemma suffix_body i j itf s : trace s `suffix_of` trace (body_effect W i j itf s).
Proof.
  unfold body_effect. destruct (resolution W i j itf); cbn [trace];
    repeat apply suffix_cons_r; done.
Qed.

Lemma suffix_interfaces i ifs : ∀ j s,
  trace s `suffix_of` trace (interfaces_effect W i j ifs s).
Proof.
  induction ifs as [|itf rest IH]; intros j s; cbn [interfaces_effect].
  - by apply suffix_cons_r.
  - etrans; [|apply IH]. etrans; [|apply suffix_body]. by apply suffix_cons_r.
Qed.

Lemma suffix_guid k g s : trace s `suffix_of` trace (guid_effect k g s).
Proof.
  unfold guid_effect. destruct (heap s !! result_block s) as [[]|]; try done.
  destruct (_ <? _)%nat; by apply suffix_cons_r.
Qed.

Lemma suffix_fill g devs : ∀ k s, trace s `suffix_of` trace (fill_effect W g k devs s).
Proof.
  induction devs as [|dev rest IH]; intros k s; cbn [fill_effect];
    destruct (hr s =? 0); try done.
  - apply suffix_cons_r, suffix_guid.
  - etrans; [|apply IH]. etrans; [|apply suffix_interfaces].
    apply suffix_cons_r, suffix_guid.
Qed.

Lemma elem_of_trace_suffix (e : Event) (t t' : list Event) :
  t `suffix_of` t' → e ∈ t → e ∈ t'.
Proof. intros [pre ->] He. apply elem_of_app. by right. Qed.



Lemma resolution_copied i j itf path :
  AllocOk W (SiteDetail i j) = true → detail itf = inr path →
  AllocOk W (SitePath i j) = true →
  resolution W i j itf = Opened path ∨ ∃ e, resolution W i j itf = OpenFailed path e.
Proof.
  intros Ha Hd Hc. unfold resolution. rewrite Ha, Hd, Hc.
  destruct (OpenPath W path) as [e|]; [right; by exists e | by left].
Qed.


Lemma last_store_snoc i ifs itf : ∀ j acc,
  last_store W i j (ifs ++ [itf]) acc
  = match resolution W i (j + length ifs) itf with
    | DetailAllocFailed | DetailFailed _ => last_store W i j ifs acc
    | CopyFailed _ => Some None
    | OpenFailed path _ | Opened path => Some (Some path)
    end.
Proof.
  induction ifs as [|x rest IH]; intros j acc; cbn [app last_store length].
  - by rewrite Nat.add_0_r.
  - rewrite IH. by rewrite <- Nat.add_succ_comm.
Qed.



End Trace.


(** ** The session handle and the detail buffer *)

Section Resources.

Variable W : World.

Lemma steady_body i j itf s :
  steady (trace s) → steady (trace (body_effect W i j itf s)).
Proof.
  unfold steady, body_effect. intros Hs.
  destruct (resolution W i j itf); cbn [trace resources]; rewrite Hs; cbn;
    by rewrite ?Nat.eqb_refl.
Qed.

Lemma steady_interfaces i ifs : ∀ j s,
  steady (trace s) → steady (trace (interfaces_effect W i j ifs s)).
Proof.
  induction ifs as [|itf rest IH]; intros j s Hs; cbn [interfaces_effect].
  - unfold steady in *. cbn. by rewrite Hs.
  - apply IH, steady_body. unfold steady in *. cbn. by rewrite Hs.
Qed.

Lemma steady_guid k g s : steady (trace s) → steady (trace (guid_effect k g s)).
Proof.
  unfold steady, guid_effect. intros Hs.
  destruct (heap s !! result_block s) as [[]|]; try done.
  destruct (_ <? _)%nat; cbn; by rewrite Hs.
Qed.

Lemma steady_fill g devs : ∀ k s,
  steady (trace s) → steady (trace (fill_effect W g k devs s)).
Proof.
  induction devs as [|dev rest IH]; intros k s Hs; cbn [fill_effect];
    destruct (hr s =? 0); try done.
  - pose proof (steady_guid k g s Hs) as Hg. unfold steady in *. cbn. by rewrite Hg.
  - apply IH, steady_interfaces.
    pose proof (steady_guid k g s Hs) as Hg. unfold steady in *. cbn. by rewrite Hg.
Qed.

Lemma steady_count devs : ∀ k s,
  steady (trace s) → steady (trace (count_effect k devs s)).
Proof.
  induction devs as [|dev rest IH]; intros k s Hs; cbn [count_effect].
  - unfold steady in *. cbn. by rewrite Hs.
  - apply IH. unfold steady in *. cbn. by rewrite Hs.
Qed.

Lemma steady_counted g devs :
  steady (trace (count_effect 0 devs (log (EvGetClassDevs g true) entry))).
Proof. by apply steady_count. Qed.

(** What the discipline says about the numbers of events. *)
Lemma resources_count (t : list Event) : ∀ r,
  resources t = Some r →
  count is_open t
  = (count is_destroy t + match session r with SessionOpen => 1 | _ => 0 end)%nat ∧
  (count is_open t ≤ 1)%nat ∧
  (session r = NoSession → count is_open t = 0%nat) ∧
  ∀ b, count (is_detail_alloc b) t
       = (count (is_free b) t
          + match buffer r with Some b' => if (b =? b')%nat then 1 else 0 | None => 0 end)%nat.
Proof.
  induction t as [|e older IH]; intros r Hr; cbn [resources] in Hr.
  - injection Hr as <-. cbn. split_and!; [lia | lia | done | intros; lia].
  - destruct (resources older) as [r0|] eqn:Hr0; [|done]. cbn in Hr.
    destruct (IH r0 eq_refl) as (Ho & Hle & Hno & Hb). clear IH.
    destruct r0 as [ses buf].
    destruct e as [g ok|i ok|i j ok|i j|i j ok|site cb p|p|p cb|i|i p|p ok| |];
      cbn [resources_step session buffer] in Hr; cbn [count is_open is_destroy
        is_detail_alloc is_free];
      cbn [session buffer] in Ho, Hno, Hb.
    all: try (injection Hr as <-; cbn [session buffer]; split_and!;
              [lia | lia | done | intros b; rewrite (Hb b); lia]).
    + destruct ses; try done. injection Hr as <-. cbn [session buffer].
      specialize (Hno eq_refl). destruct ok; cbn; split_and!; try lia; try done.
      all: intros b; rewrite (Hb b); lia.
    + destruct ses, buf; try done; injection Hr as <-; cbn [session buffer];
        (split_and!; [lia | lia | done | intros b; rewrite (Hb b); lia]).
    + destruct ses, buf; try done; injection Hr as <-; cbn [session buffer];
        (split_and!; [lia | lia | done | intros b; rewrite (Hb b); lia]).
    + destruct site as [|i j|i j].
      * injection Hr as <-. cbn [session buffer].
        split_and!; [lia | lia | done | intros b; rewrite (Hb b); lia].
      * destruct p as [|b'].
        { injection Hr as <-. cbn [session buffer].
          split_and!; [lia | lia | done | intros b; rewrite (Hb b); lia]. }
        destruct ses, buf; try done. injection Hr as <-. cbn [session buffer].
        split_and!; [lia | lia | done |]. intros b. rewrite (Hb b).
        destruct (b =? b')%nat; lia.
      * injection Hr as <-. cbn [session buffer]. destruct p;
        split_and!; try lia; try done; intros b; rewrite (Hb b); lia.
    + destruct p as [|b']; [done|]. destruct buf as [b0|]; [|done].
      destruct (b' =? b0)%nat eqn:Hbb; [|done]. apply Nat.eqb_eq in Hbb as ->.
      injection Hr as <-. cbn [session buffer].
      split_and!; [lia | lia | done |]. intros b. rewrite (Hb b).
      destruct (b =? b0)%nat; lia.
    + destruct ses, buf; try done. injection Hr as <-. cbn [session buffer].
      split_and!; [lia | lia | done | intros b; rewrite (Hb b); lia].
Qed.

Lemma released_count (t : list Event) :
  released t = true →
  count is_destroy t = count is_open t ∧
  ∀ b, count (is_free b) t = count (is_detail_alloc b) t.
Proof.
  unfold released. destruct (resources t) as [[ses buf]|] eqn:Hr; [|done].
  destruct (resources_count t _ Hr) as (Ho & _ & _ & Hb). cbn in Ho, Hb.
  destruct ses, buf; try done; intros _; (split; [lia|]); intros b; rewrite (Hb b); lia.
Qed.

Lemma resources_app_inv (newer older : list Event) (r : Resources) :
  resources (newer ++ older) = Some r → is_Some (resources older).
Proof.
  revert r. induction newer as [|e newer IH]; intros r Hr; [by exists r|].
  cbn in Hr. destruct (resources (newer ++ older)) as [r1|] eqn:H1; [|done].
  by eapply IH.
Qed.

(** A pending detail buffer is freed before any further query. *)
Lemma pending_freed (b : nat) (older : list Event) :
  resources older = Some (mkResources SessionOpen (Some b)) →
  ∀ newer r, resources (newer ++ older) = Some r →
    (buffer r = Some b ∧ session r = SessionOpen ∧
     Forall (λ e, is_query e = false) newer) ∨
    ∃ newer' mid, newer = newer' ++ EvFree (Ptr b) :: mid ∧
                  Forall (λ e, is_query e = false) mid.
Proof.
  intros Ho newer. induction newer as [|e newer IH]; intros r Hr.
  - cbn in Hr. rewrite Ho in Hr. injection Hr as <-. by left.
  - cbn in Hr. destruct (resources (newer ++ older)) as [r1|] eqn:H1; [|done].
    cbn in Hr. destruct (IH r1 eq_refl) as [(Hb & Hs & Hq)|(newer' & mid & -> & Hq)].
    + destruct r1 as [ses buf]. cbn in Hb, Hs. subst ses buf.
      destruct e as [g ok|i ok|i j ok|i j|i j ok|site cb p|p|p cb|i|i p|p ok| |];
        cbn in Hr; try done;
        try (injection Hr as <-; left; split_and!; [done | done | by constructor]).
      * destruct site as [|i j|i j];
          try (injection Hr as <-; left; split_and!; [done | done | by constructor]).
        destruct p; [|done].
        injection Hr as <-; left; split_and!; [done | done | by constructor].
      * destruct p as [|b']; [done|]. destruct (b' =? b)%nat eqn:Hbb; [|done].
        apply Nat.eqb_eq in Hbb as ->. right. by exists [], newer.
    + right. by exists (e :: newer'), mid.
Qed.

Lemma freed_before_query (t : list Event) :
  released t = true →
  ∀ newer older i j cb b,
    t = newer ++ EvAlloc (SiteDetail i j) cb (Ptr b) :: older →
    ∃ newer' mid, newer = newer' ++ EvFree (Ptr b) :: mid ∧
                  Forall (λ e, is_query e = false) mid.
Proof.
  intros Hrel newer older i j cb b ->. unfold released in Hrel.
  destruct (resources (newer ++ EvAlloc (SiteDetail i j) cb (Ptr b) :: older))
    as [r|] eqn:Hr; [|done].
  destruct (resources_app_inv _ _ _ Hr) as [r1 Hr1].
  assert (Hr1' : r1 = mkResources SessionOpen (Some b)).
  { cbn in Hr1. destruct (resources older) as [[ses buf]|]; [|done]. cbn in Hr1.
    destruct ses, buf; try done. by injection Hr1. }
  subst r1.
  destruct (pending_freed b _ Hr1 newer r Hr) as [(Hb & _ & _)|Hfree]; [|done].
  destruct r as [ses buf]. cbn in Hb. subst buf. by destruct ses.
Qed.

Lemma released_trace (g : GUID) :
  released (trace (snd (EnumerateUSBDevices W g))) = true.
Proof.
  destruct (ClassDevs W g) as [e|devs] eqn:Ho.
  - by rewrite (EnumerateUSBDevices_not_opened W g e Ho).
  - destruct (AllocOk W SiteResult) eqn:Ha.
    + rewrite (EnumerateUSBDevices_completed W g devs Ho Ha). cbn [snd].
      assert (Hs : steady (trace (fill_effect W g 0 devs (allocated g devs)))).
      { apply steady_fill. pose proof (steady_counted g devs) as Hc.
        unfold steady in *. cbn. by rewrite Hc. }
      unfold released, completed. cbn. unfold steady in Hs. by rewrite Hs.
    + rewrite (EnumerateUSBDevices_not_allocated W g devs Ho Ha).
      pose proof (steady_counted g devs) as Hc. unfold steady in Hc.
      assert (Hn : released (trace (not_allocated g devs)) = true).
      { unfold released, not_allocated. cbn [trace resources]. by rewrite Hc. }
      by destruct devs.
Qed.

(** Once the session is open, destroying it is the last act. *)
Lemma destroy_last (g : GUID) (devs : HDEVINFO) :
  ClassDevs W g = inr devs →
  ∃ t, trace (snd (EnumerateUSBDevices W g)) = EvDestroy :: t.
Proof.
  intros Ho. destruct (AllocOk W SiteResult) eqn:Ha.
  - rewrite (EnumerateUSBDevices_completed W g devs Ho Ha). by eexists.
  - rewrite (EnumerateUSBDevices_not_allocated W g devs Ho Ha).
    destruct devs; by eexists.
Qed.

Lemma bind_Raise_inv {A B} (m : M A) (f : A → M B) (s s' : State) :
  (m ≫= f) s = Raise s' →
  m s = Raise s' ∨ ∃ a s1, m s = Ok a s1 ∧ f a s1 = Raise s'.
Proof.
  unfold mbind, M_bind. destruct (m s) as [a s1|s1|]; intros H; try done.
  - right. by exists a, s1.
  - left. by injection H as ->.
Qed.

Lemma try_finally_Raise_inv {A} (body : M A) (handler : M unit) (s s' : State) :
  try_finally body handler s = Raise s' →
  ∃ s1, handler s1 = Raise s' ∨ handler s1 = Ok tt s'.
Proof.
  unfold try_finally. destruct (body s) as [a s1|s1|]; [| |done].
  - destruct (handler s1) as [[] s2|s2|] eqn:Hh; try done.
    intros [= <-]. exists s1. by left.
  - destruct (handler s1) as [[] s2|s2|] eqn:Hh; try done; intros [= <-]; exists s1.
    + by right.
    + by left.
Qed.

(** Should an exception unwind through the body of the interface loop,
    from whatever state, the detail buffer is freed on the way: the
    __finally is the last thing that ran. *)
Lemma interface_body_unwinds_freed (hDevInfo : HDEVINFO) (i : nat)
    (d : SP_DEVICE_INTERFACE_DATA) (s s' : State) :
  interface_body W hDevInfo i d s = Raise s' →
  ∃ t, trace s' = EvFree (Ptr (length (heap s))) :: t.
Proof.
  unfold interface_body. intros H.
  apply bind_Raise_inv in H as [H|(cb & s1 & H1 & H)]; [done|].
  assert (Hs1 : heap s1 = heap s) by (by injection H1 as _ <-).
  apply bind_Raise_inv in H as [H|(p & s2 & H2 & H)].
  { unfold CoTaskMemAlloc in H. by destruct (AllocOk W _). }
  unfold CoTaskMemAlloc in H2. destruct (AllocOk W _); injection H2 as <- <-;
    cbn [is_null negb] in H; [|done].
  apply try_finally_Raise_inv in H as [s3 [H|H]]; [done|].
  injection H as <-. rewrite Hs1. by eexists.
Qed.

End Resources.

(** C3: on every path out of the function (return, or the unwinding
    of an access violation) the session handle has been destroyed exactly
    once if it was opened, and every detail buffer that was allocated has
    been freed exactly once, before the loops proceed to their next
    enumeration query. *)
Theorem resources_released (W : World) (g : GUID) :
  let t := trace (snd (EnumerateUSBDevices W g)) in
  released t = true ∧
  count is_destroy t = count is_open t ∧
  (∀ devs, ClassDevs W g = inr devs → ∃ t', t = EvDestroy :: t') ∧
  (∀ b, count (is_free b) t = count (is_detail_alloc b) t) ∧
  (∀ newer older i j cb b,
     t = newer ++ EvAlloc (SiteDetail i j) cb (Ptr b) :: older →
     ∃ newer' mid, newer = newer' ++ EvFree (Ptr b) :: mid ∧
                   Forall (λ e, is_query e = false) mid).
Proof.
  intros t. pose proof (released_trace W g) as Hr. fold t in Hr.
  destruct (released_count t Hr) as [Hd Hb].
  split_and!; [done | done | apply destroy_last | done | by apply freed_before_query].
Qed.

(** ** The store of the class identifier and the device query *)

Section Order.

Variable W : World.

Lemma check_body g i j itf s :
  store_precedes_check g (trace s) = true →
  store_precedes_check g (trace (body_effect W i j itf s)) = true.
Proof.
  intros Hs. unfold body_effect. by destruct (resolution W i j itf).
Qed.

Lemma check_interfaces g i ifs : ∀ j s,
  store_precedes_check g (trace s) = true →
  store_precedes_check g (trace (interfaces_effect W i j ifs s)) = true.
Proof.
  induction ifs as [|itf rest IH]; intros j s Hs; cbn [interfaces_effect]; [done|].
  by apply IH, check_body.
Qed.

Lemma trace_guid n k g s :
  array_ready n s → trace (guid_effect k g s) = EvStoreGuid k g :: trace s.
Proof.
  intros Hs. destruct (array_ready_block n s Hs) as (slots & Hb & _).
  unfold guid_effect. rewrite Hb. by destruct (_ <? _)%nat.
Qed.

Lemma check_device n k g ok s :
  array_ready n s → store_precedes_check g (trace s) = true →
  store_precedes_check g (trace (log (EvEnumDeviceInfo k ok) (guid_effect k g s))) = true.
Proof.
  intros Hs Hc. cbn [trace log]. rewrite (trace_guid n) by done.
  cbn [store_precedes_check]. rewrite Nat.eqb_refl, Z.eqb_refl, Hc.
  by destruct (existsb _ _).
Qed.

Lemma check_fill n g devs : ∀ k s,
  array_ready n s → store_precedes_check g (trace s) = true →
  store_precedes_check g (trace (fill_effect W g k devs s)) = true.
Proof.
  induction devs as [|dev rest IH]; intros k s Hs Hc; cbn [fill_effect];
    destruct (hr s =? 0); try done.
  - by apply (check_device n).
  - apply IH.
    + by apply array_ready_interfaces, array_ready_log, array_ready_guid.
    + by apply check_interfaces, (check_device n).
Qed.

Lemma check_count g devs : ∀ k s,
  existsb is_result_alloc (trace s) = false →
  store_precedes_check g (trace s) = true →
  existsb is_result_alloc (trace (count_effect k devs s)) = false ∧
  store_precedes_check g (trace (count_effect k devs s)) = true.
Proof.
  induction devs as [|dev rest IH]; intros k s Ha Hc; cbn [count_effect].
  - cbn. by rewrite Ha, Hc.
  - apply IH; cbn; by rewrite ?Ha, ?Hc.
Qed.

Lemma check_trace (g : GUID) :
  store_precedes_check g (trace (snd (EnumerateUSBDevices W g))) = true.
Proof.
  destruct (ClassDevs W g) as [e|devs] eqn:Ho.
  { by rewrite (EnumerateUSBDevices_not_opened W g e Ho). }
  destruct (check_count g devs 0%nat (log (EvGetClassDevs g true) entry)) as [Hn Hc];
    [done | done |].
  destruct (AllocOk W SiteResult) eqn:Ha.
  - rewrite (EnumerateUSBDevices_completed W g devs Ho Ha). cbn [snd].
    unfold completed. cbn [trace log store_precedes_check andb].
    apply (check_fill (length devs)); [apply array_ready_allocated|].
    unfold allocated. cbn [trace store_precedes_check andb]. done.
  - rewrite (EnumerateUSBDevices_not_allocated W g devs Ho Ha).
    assert (Hx : store_precedes_check g (trace (not_allocated g devs)) = true)
      by (unfold not_allocated; cbn [trace store_precedes_check andb]; done).
    by destruct devs.
Qed.

Lemma check_spec (g : GUID) (t : list Event) :
  store_precedes_check g t = true →
  ∀ newer older i ok,
    t = newer ++ EvEnumDeviceInfo i ok :: older →
    existsb is_result_alloc older = true →
    ∃ older', older = EvStoreGuid i g :: older'.
Proof.
  intros Hc newer. revert t Hc.
  induction newer as [|e newer IH]; intros t Hc older i ok -> Ha.
  - cbn in Hc. rewrite Ha in Hc. apply andb_true_iff in Hc as [Hc _].
    destruct older as [|[] older']; try done.
    apply andb_true_iff in Hc as [Hi Hg].
    apply Nat.eqb_eq in Hi as ->. apply Z.eqb_eq in Hg as ->. by eexists.
  - cbn in Hc. apply andb_true_iff in Hc as [_ Hc]. by eapply IH.
Qed.

Lemma existsb_result_alloc (t : list Event) (cb : Z) (p : ptr) :
  EvAlloc SiteResult cb p ∈ t → existsb is_result_alloc t = true.
Proof.
  intros He. apply existsb_exists. exists (EvAlloc SiteResult cb p).
  split; [by apply list_elem_of_In | done].
Qed.

(** When the fill pass ends with [hr] still S_OK, its last acts were the
    store at index [n], one past the last slot, and the query that found
    no device at [n]. *)
Lemma fill_overrun n g devs : ∀ k s,
  array_ready n s → (k + length devs = n)%nat →
  hr (fill_effect W g k devs s) = 0 →
  (∃ t, trace (fill_effect W g k devs s)
        = EvEnumDeviceInfo n false :: EvStoreGuid n g :: t) ∧
  OverrunGuid (result_block s) n g ∈ overruns (fill_effect W g k devs s).
Proof.
  induction devs as [|dev rest IH]; intros k s Hs Hk Hr.
  - cbn [length] in Hk. rewrite Nat.add_0_r in Hk. subst k.
    destruct (decide (hr s = 0)) as [Hz|Hz]; [|by rewrite fill_effect_stopped in Hr].
    cbn [fill_effect]. rewrite Hz. cbn [Z.eqb].
    destruct (array_ready_block n s Hs) as (slots & Hb & Hn).
    rewrite (guid_effect_outside n g s slots Hb) by lia. cbn. split; [by eexists|].
    by left.
  - destruct (decide (hr s = 0)) as [Hz|Hz]; [|by rewrite fill_effect_stopped in Hr].
    cbn [fill_effect] in *. rewrite Hz in *. cbn [Z.eqb] in *.
    set (s2 := interfaces_effect W k 0 dev
                 (log (EvEnumDeviceInfo k true) (guid_effect k g s))) in *.
    assert (Hb : result_block s2 = result_block s).
    { unfold result_block, s2. rewrite pResult_interfaces_effect. cbn.
      by destruct (guid_effect_frame k g s) as (-> & _ & _). }
    rewrite <- Hb. apply IH; [| cbn in Hk; lia | done].
    by apply array_ready_interfaces, array_ready_log, array_ready_guid.
Qed.

End Order.

(** C2: in the fill pass the class identifier is stored into slot
    iResult before the device at iResult is queried; hence, when the loop
    ends because no device is left, the function has just stored the
    class identifier at index n of an array allocated with n slots (n may
    be 0): one element past the end. *)
Theorem class_identifier_stored_first (W : World) (g : GUID) :
  let r := EnumerateUSBDevices W g in
  (∀ newer older i ok,
     trace (snd r) = newer ++ EvEnumDeviceInfo i ok :: older →
     (∃ cb p, EvAlloc SiteResult cb p ∈ older) →
     ∃ older', older = EvStoreGuid i g :: older') ∧
  (∀ n b, fst r = Returned true n (Ptr b) →
     EvAlloc SiteResult (Z.of_nat n * sizeof_EnumeratedUSBDevice) (Ptr b) ∈ trace (snd r) ∧
     (∃ slots, heap (snd r) !! b = Some (BResult slots) ∧ length slots = n) ∧
     (∃ t, trace (snd r) = EvDestroy :: EvEnumDeviceInfo n false :: EvStoreGuid n g :: t) ∧
     OverrunGuid b n g ∈ overruns (snd r)).
Proof.
  intros r. split.
  - intros newer older i ok Ht (cb & p & Ha).
    eapply (check_spec g (trace (snd r))); [apply check_trace | exact Ht |].
    by eapply existsb_result_alloc.
  - intros n b. unfold r.
    destruct (ClassDevs W g) as [e|devs] eqn:Ho.
    { by rewrite (EnumerateUSBDevices_not_opened W g e Ho). }
    destruct (AllocOk W SiteResult) eqn:Ha.
    2: { rewrite (EnumerateUSBDevices_not_allocated W g devs Ho Ha). by destruct devs. }
    rewrite (EnumerateUSBDevices_completed W g devs Ho Ha). cbn [fst snd].
    intros [= Hr <- <-]. apply Z.eqb_eq in Hr.
    destruct (the_slots_ready _ _ (array_ready_completed W g devs)) as [Hb Hn].
    rewrite result_block_completed in Hb.
    destruct (fill_overrun W (length devs) g devs 0%nat (allocated g devs))
      as [[t Ht] Hov]; [apply array_ready_allocated | done | done |].
    split_and!.
    + unfold completed. cbn [trace log]. apply elem_of_cons. right.
      eapply elem_of_trace_suffix; [apply suffix_fill|].
      unfold allocated. cbn [trace]. apply elem_of_cons. right. by left.
    + by exists (the_slots (completed W g devs)).
    + exists t. unfold completed. cbn [trace log]. by rewrite Ht.
    + done.
Qed.

(** ** The theorems at sample worlds *)

(** The trace properties do tell traces apart. *)
Example released_session_left_open : released [EvGetClassDevs 1 true] = false.
Proof. reflexivity. Qed.

Example released_buffer_left :
  released [EvDestroy; EvAlloc (SiteDetail 0 0) 40 (Ptr 1); EvGetClassDevs 1 true] = false.
Proof. reflexivity. Qed.

Example released_freed_twice :
  released [EvDestroy; EvFree (Ptr 1); EvFree (Ptr 1);
            EvAlloc (SiteDetail 0 0) 40 (Ptr 1); EvGetClassDevs 1 true] = false.
Proof. reflexivity. Qed.

Example check_query_before_store :
  store_precedes_check 1
    [EvStoreGuid 0 1; EvEnumDeviceInfo 0 true; EvAlloc SiteResult 24 (Ptr 0)] = false.
Proof. reflexivity. Qed.

Example resources_of_two_one :
  let t := trace (snd (EnumerateUSBDevices world_two_one 1)) in
  count is_open t = 1%nat ∧ count is_destroy t = 1%nat ∧
  count (is_detail_alloc 1) t = 1%nat ∧ count (is_free 1) t = 1%nat ∧
  count (is_detail_alloc 3) t = 1%nat ∧ count (is_free 3) t = 1%nat.
Proof. vm_compute. done. Qed.

Lemma class_identifier_stored_first_witness :
  let r := EnumerateUSBDevices world_pair 1 in
  EvAlloc SiteResult (Z.of_nat 2 * sizeof_EnumeratedUSBDevice) (Ptr 0) ∈ trace (snd r) ∧
  (∃ slots, heap (snd r) !! 0%nat = Some (BResult slots) ∧ length slots = 2%nat) ∧
  (∃ t, trace (snd r) = EvDestroy :: EvEnumDeviceInfo 2 false :: EvStoreGuid 2 1 :: t) ∧
  OverrunGuid 0 2 1 ∈ overruns (snd r).
Proof.
  apply (proj2 (class_identifier_stored_first world_pair 1) 2%nat 0%nat). reflexivity.
Defined.

Lemma open_failure_clears_success_witness :
  fst (EnumerateUSBDevices world_locked 1) = Returned false 1 (Ptr 0).
Proof.
  apply (open_failure_clears_success world_locked 1 [[one_interface path_a]] 0 0
           [one_interface path_a] (one_interface path_a) path_a 5);
    try reflexivity.
  split.
  - intros path e [= <-]. done.
  - repeat constructor; intros e; discriminate.
Defined.

Lemma one_interface_each_witness :
  fst (EnumerateUSBDevices world_pair 1) = Returned true 2 (Ptr 0) ∧
  ∃ slots,
    returned_devices (EnumerateUSBDevices world_pair 1) = Some slots ∧
    length slots = 2%nat ∧
    ∀ i d, slots !! i = Some d →
      guidInterface d = 1 ∧ wszInterfacePath d ≠ nullptr ∧
      ∃ itf path,
        [[one_interface path_a]; [one_interface path_b]] !! i = Some [itf] ∧
        detail itf = inr path ∧
        string_at (snd (EnumerateUSBDevices world_pair 1)) (wszInterfacePath d) = Some path.
Proof.
  apply (one_interface_each world_pair 1 [[one_interface path_a]; [one_interface path_b]]);
    try reflexivity.
  repeat constructor; eexists _, _; split; reflexivity.
Defined.



Lemma no_interface_slot_witness :
  ∃ slots d,
    returned_devices (EnumerateUSBDevices world_bare 5) = Some slots ∧
    slots !! 0%nat = Some d ∧
    wszInterfacePath d = nullptr ∧
    (guidInterface d = 5 ∨ guidInterface d = GUID_NULL) ∧
    (reaches world_bare [[]] 0 = true → guidInterface d = 5).
Proof.
  apply (no_interface_slot world_bare 5 [[]] 0); reflexivity.
Defined.

(** C4, as stated, fails: the slot of a device without interfaces
    carries the requested class identifier, not the zero one. *)
Lemma no_interface_slot_not_zeroed :
  returned_devices (EnumerateUSBDevices world_bare 5)
  = Some [{| guidInterface := 5; wszInterfacePath := nullptr |}] ∧
  returned_devices (EnumerateUSBDevices world_bare 5) ≠ Some [zero_slot].
Proof. split; [reflexivity | discriminate]. Qed.

(** C5 (code evaluated): the copy of the path of interface 0 of
    device 0 fails; [hr] becomes E_OUTOFMEMORY, but the interface loop
    has no test of [hr]: interface 1 of the same device is enumerated,
    resolved, copied and opened, and its path ends up in slot 0.  Only
    then does the device loop stop: device 1 is not processed. *)
Theorem copy_failure_continues :
  let r := EnumerateUSBDevices world_copy_fails 1 in
  fst r = Returned false 2 (Ptr 0) ∧
  hr (snd r) = E_OUTOFMEMORY ∧
  rev (trace (snd r))
  = [EvGetClassDevs 1 true;
     EvEnumDeviceInfo 0 true; EvEnumDeviceInfo 1 true; EvEnumDeviceInfo 2 false;
     EvAlloc SiteResult 48 (Ptr 0); EvZero (Ptr 0) 48;
     EvStoreGuid 0 1; EvEnumDeviceInfo 0 true;
     EvEnumDeviceInterfaces 0 0 true; EvGetDetailSize 0 0;
     EvAlloc (SiteDetail 0 0) 40 (Ptr 1); EvGetDetail 0 0 true;
     EvAlloc (SitePath 0 0) 6 nullptr; EvStorePath 0 nullptr; EvFree (Ptr 1);
     EvEnumDeviceInterfaces 0 1 true; EvGetDetailSize 0 1;
     EvAlloc (SiteDetail 0 1) 40 (Ptr 2); EvGetDetail 0 1 true;
     EvAlloc (SitePath 0 1) 6 (Ptr 3); EvStorePath 0 (Ptr 3);
     EvCreateFile (Ptr 3) true; EvCloseHandle; EvFree (Ptr 2);
     EvEnumDeviceInterfaces 0 2 false;
     EvDestroy] ∧
  returned_devices r
  = Some [{| guidInterface := 1; wszInterfacePath := Ptr 3 |}; zero_slot] ∧
  string_at (snd r) (Ptr 3) = Some path_b.
Proof. vm_compute. done. Qed.

Lemma resources_released_witness :
  ∃ t', trace (snd (EnumerateUSBDevices world_two_one 1)) = EvDestroy :: t'.
Proof.
  apply (proj1 (proj2 (proj2 (resources_released world_two_one 1))) devs_two_one).
  reflexivity.
Defined.

(** * Further properties of EnumerateUSBDevices *)

Section More.

Variable W : World.

Lemma clean_from_intro i ifs : ∀ j,
  (∀ k itf, ifs !! k = Some itf → clean_interface W i (j + k) itf = true) →
  clean_from W i j ifs = true.
Proof.
  induction ifs as [|x rest IH]; intros j H; cbn [clean_from]; [done|].
  apply andb_true_iff. split.
  - rewrite <- (Nat.add_0_r j). by apply H.
  - apply IH. intros k itf Hk. rewrite Nat.add_succ_comm. by apply H.
Qed.

Lemma clean_devices_intro devs : ∀ k,
  (∀ i dev, devs !! i = Some dev → clean_device W (k + i) dev = true) →
  clean_devices W k devs = true.
Proof.
  induction devs as [|x rest IH]; intros k H; cbn [clean_devices]; [done|].
  apply andb_true_iff. split.
  - rewrite <- (Nat.add_0_r k). by apply H.
  - apply IH. intros i dev Hi. rewrite Nat.add_succ_comm. by apply H.
Qed.

Lemma clean_interface_spec i j itf :
  clean_interface W i j itf = true ↔
  ∃ path, AllocOk W (SiteDetail i j) = true ∧ detail itf = inr path ∧
          AllocOk W (SitePath i j) = true ∧ OpenPath W path = None.
Proof.
  unfold clean_interface. split.
  - destruct (resolution W i j itf) eqn:Hr; try done. intros _.
    exists path. by apply resolution_Opened.
  - intros (path & H). apply resolution_Opened in H. by rewrite H.
Qed.

Lemma clean_devices_spec devs :
  clean_devices W 0 devs = true ↔
  ∀ i dev j itf, devs !! i = Some dev → dev !! j = Some itf →
    ∃ path, AllocOk W (SiteDetail i j) = true ∧ detail itf = inr path ∧
            AllocOk W (SitePath i j) = true ∧ OpenPath W path = None.
Proof.
  split.
  - intros Hc i dev j itf Hi Hj. apply clean_interface_spec.
    pose proof (clean_devices_lookup W devs 0 i dev Hc Hi) as Hdev.
    apply (clean_from_lookup W i dev 0 j itf Hdev Hj).
  - intros H. apply clean_devices_intro. intros i dev Hi. cbn [Nat.add].
    apply clean_from_intro. intros j itf Hj. cbn [Nat.add].
    apply clean_interface_spec. by eapply H.
Qed.

End More.

(** X1: with the array allocated and failing calls leaving a non-zero
    last error, the function returns TRUE exactly when every interface
    of every device is resolved, copied and opened; the count and the
    array are returned either way. *)
Theorem success_exactly_when_all_open (W : World) (g : GUID) (devs : HDEVINFO) :
  ClassDevs W g = inr devs → AllocOk W SiteResult = true → errors_nonzero W devs →
  ∃ ok, fst (EnumerateUSBDevices W g) = Returned ok (length devs) (Ptr 0) ∧
    (ok = true ↔
     ∀ i dev j itf, devs !! i = Some dev → dev !! j = Some itf →
       ∃ path, AllocOk W (SiteDetail i j) = true ∧ detail itf = inr path ∧
               AllocOk W (SitePath i j) = true ∧ OpenPath W path = None).
Proof.
  intros Ho Ha He. rewrite (EnumerateUSBDevices_completed W g devs Ho Ha). cbn [fst].
  eexists. split; [reflexivity|].
  rewrite (success_iff_clean W g devs He). apply clean_devices_spec.
Qed.

(** X2: whenever the function returns, the count it reports is the
    number of elements of the array it returns: 0 with a null array, the
    number of devices of the set with a non-null one, success or not. *)
Theorem count_matches_array (W : World) (g : GUID) (ok : bool) (n : nat) (p : ptr) :
  fst (EnumerateUSBDevices W g) = Returned ok n p →
  (∃ slots, returned_devices (EnumerateUSBDevices W g) = Some slots ∧ length slots = n) ∧
  (p = nullptr → n = 0%nat) ∧
  (∀ devs, ClassDevs W g = inr devs → p ≠ nullptr → n = length devs).
Proof.
  destruct (ClassDevs W g) as [e|devs] eqn:Ho.
  { rewrite (EnumerateUSBDevices_not_opened W g e Ho). intros [= <- <- <-].
    split_and!; [by exists [] | done | done]. }
  destruct (AllocOk W SiteResult) eqn:Ha.
  - destruct (returned_devices_completed W g devs Ho Ha) as [Hr Hn].
    rewrite Hr. rewrite (EnumerateUSBDevices_completed W g devs Ho Ha).
    intros [= <- <- <-]. split_and!; [by eexists | done | by intros ? [= <-]].
  - rewrite (EnumerateUSBDevices_not_allocated W g devs Ho Ha).
    destruct devs; [|done]. intros [= <- <- <-].
    split_and!; [by exists [] | done | done].
Qed.

Section Paths.

Variable W : World.

Lemma resolution_path i j itf path :
  (resolution W i j itf = Opened path ∨ ∃ e, resolution W i j itf = OpenFailed path e) →
  detail itf = inr path ∧ AllocOk W (SitePath i j) = true.
Proof.
  intros [Hr|[e Hr]].
  - apply resolution_Opened in Hr as (_ & ? & ? & _). done.
  - apply resolution_OpenFailed in Hr as (_ & ? & ? & _). done.
Qed.

Lemma last_store_source i ifs : ∀ j acc path,
  last_store W i j ifs acc = Some (Some path) →
  acc = Some (Some path) ∨
  ∃ k itf, ifs !! k = Some itf ∧ detail itf = inr path ∧
           AllocOk W (SitePath i (j + k)) = true.
Proof.
  induction ifs as [|x rest IH]; intros j acc path Hl; cbn [last_store] in Hl;
    [by left|].
  destruct (IH _ _ _ Hl) as [Hacc|(k & itf & Hk & Hd & Ha)].
  - destruct (resolution W i j x) as [|e|p|p e|p] eqn:Hr; try (by left); try done.
    + injection Hacc as ->. right. exists 0%nat, x. rewrite Nat.add_0_r.
      split; [done|]. apply resolution_path. right. by exists e.
    + injection Hacc as ->. right. exists 0%nat, x. rewrite Nat.add_0_r.
      split; [done|]. apply resolution_path. by left.
  - right. exists (S k), itf. by rewrite <- Nat.add_succ_comm.
Qed.

End Paths.

(** X3: every element of the returned array carries the requested
    class identifier or the zero one, and a path that is null or
    designates a live copy of the device path of an interface of the same
    device; this holds on failure as well as on success. *)
Theorem returned_paths_are_copies (W : World) (g : GUID) (devs : HDEVINFO)
    (slots : list EnumeratedUSBDevice) (i : nat) (d : EnumeratedUSBDevice) :
  ClassDevs W g = inr devs → AllocOk W SiteResult = true →
  returned_devices (EnumerateUSBDevices W g) = Some slots → slots !! i = Some d →
  (guidInterface d = g ∨ guidInterface d = GUID_NULL) ∧
  (wszInterfacePath d = nullptr ∨
   ∃ dev j itf path,
     devs !! i = Some dev ∧ dev !! j = Some itf ∧ detail itf = inr path ∧
     string_at (snd (EnumerateUSBDevices W g)) (wszInterfacePath d) = Some path).
Proof.
  intros Ho Ha Hs Hd.
  destruct (returned_devices_completed W g devs Ho Ha) as [Hr Hn].
  rewrite Hr in Hs. injection Hs as <-.
  rewrite (EnumerateUSBDevices_completed W g devs Ho Ha). cbn [snd].
  assert (Hi : (i < length devs)%nat) by (rewrite <- Hn; by eapply lookup_lt_Some).
  destruct (lookup_lt_is_Some_2 devs i Hi) as [dev Hdev].
  destruct (slot_at_completed W g devs i dev Hdev) as (d' & Hd' & Hor & _).
  unfold slot_at in Hd'. rewrite Hd in Hd'. injection Hd' as <-.
  destruct Hor as [->|[Hg Hp]]; [split; [by right | by left]|].
  split; [by left|].
  destruct (last_store W i 0 dev None) as [[path|]|] eqn:Hl; [| by left | by left].
  right. destruct (last_store_source W i dev 0 None path Hl) as [|(j & itf & Hj & Hdet & _)];
    [done|].
  by exists dev, j, itf, path.
Qed.

Section Abort.

Variable W : World.

Lemma clean_devices_take devs : ∀ k m,
  clean_devices W k devs = true → clean_devices W k (take m devs) = true.
Proof.
  induction devs as [|x rest IH]; intros k m Hc; destruct m; cbn in *; try done.
  apply andb_true_iff in Hc as [-> Hc]. by apply IH.
Qed.

Lemma reaches_earlier devs k i :
  (i ≤ k)%nat → reaches W devs k = true → reaches W devs i = true.
Proof.
  unfold reaches. intros Hi Hk.
  replace (take i devs) with (take i (take k devs))
    by (rewrite take_take; f_equal; lia).
  by apply clean_devices_take.
Qed.

Lemma clean_from_false i ifs : ∀ j k itf,
  ifs !! k = Some itf → clean_interface W i (j + k) itf = false →
  clean_from W i j ifs = false.
Proof.
  intros j k itf Hk Hc. destruct (clean_from W i j ifs) eqn:Hf; [|done].
  by rewrite (clean_from_lookup W i ifs j k itf Hf Hk) in Hc.
Qed.

(** After the first device that fails, the slots keep what they held. *)
Lemma slot_beyond_failure n g : ∀ devs j k s dev i,
  array_ready n s → devs !! j = Some dev → hr s = 0 →
  open_errors_nonzero W → Forall (Forall detail_error_nonzero) devs →
  clean_devices W k (take j devs) = true → clean_device W (k + j) dev = false →
  (k + j < i)%nat →
  slot_at (fill_effect W g k devs s) i = slot_at s i.
Proof.
  induction devs as [|x rest IH]; intros j k s dev i Hs Hj Hr Ho Hd Hc Hu Hi; [done|].
  apply Forall_cons in Hd as [Hd1 Hd2].
  cbn [fill_effect]. rewrite Hr. cbn [Z.eqb].
  set (s1 := log (EvEnumDeviceInfo k true) (guid_effect k g s)).
  assert (Hs1 : array_ready n s1) by (by apply array_ready_log, array_ready_guid).
  set (s2 := interfaces_effect W k 0 x s1).
  assert (H2 : slot_at s2 i = slot_at s i).
  { unfold s2. rewrite (slot_at_interfaces_ne W n) by (done || lia).
    change (slot_at s1 i) with (slot_at (guid_effect k g s) i).
    apply (slot_at_guid_ne n); [done | lia]. }
  destruct j as [|j]; cbn in Hj.
  - injection Hj as ->. rewrite Nat.add_0_r in Hu.
    rewrite fill_effect_stopped; [done|]. by apply hr_interfaces_failure.
  - cbn in Hc. apply andb_true_iff in Hc as [Hc1 Hc2].
    rewrite <- H2. apply (IH j (S k) s2 dev i); try done.
    + by apply array_ready_interfaces.
    + unfold s2. rewrite hr_interfaces_clean by done. cbn.
      by destruct (guid_effect_frame k g s) as (_ & _ & ->).
    + by rewrite Nat.add_succ_comm.
    + lia.
Qed.

Lemma devices_up_to_body k i j itf s :
  (i ≤ k)%nat → devices_up_to k (trace s) →
  devices_up_to k (trace (body_effect W i j itf s)).
Proof.
  intros Hi Hs. unfold body_effect, devices_up_to.
  destruct (resolution W i j itf); cbn [trace];
    repeat (apply Forall_cons; split; [by intros ? [= <-]|]); done.
Qed.

Lemma devices_up_to_interfaces k i ifs : ∀ j s,
  (i ≤ k)%nat → devices_up_to k (trace s) →
  devices_up_to k (trace (interfaces_effect W i j ifs s)).
Proof.
  induction ifs as [|itf rest IH]; intros j s Hi Hs; cbn [interfaces_effect].
  - apply Forall_cons. split; [by intros ? [= <-] | done].
  - apply IH; [done|]. apply devices_up_to_body; [done|].
    apply Forall_cons. split; [by intros ? [= <-] | done].
Qed.

Lemma devices_up_to_guid n k i g s :
  array_ready n s → (i ≤ k)%nat → devices_up_to k (trace s) →
  devices_up_to k (trace (guid_effect i g s)).
Proof.
  intros Hs Hi Ht. rewrite (trace_guid n) by done.
  apply Forall_cons. split; [by intros ? [= <-] | done].
Qed.

(** The fill pass does nothing for a device after the first that fails. *)
Lemma devices_up_to_failure n g : ∀ devs j k s dev,
  array_ready n s → devs !! j = Some dev → hr s = 0 →
  open_errors_nonzero W → Forall (Forall detail_error_nonzero) devs →
  clean_devices W k (take j devs) = true → clean_device W (k + j) dev = false →
  devices_up_to (k + j) (trace s) →
  devices_up_to (k + j) (trace (fill_effect W g k devs s)).
Proof.
  induction devs as [|x rest IH]; intros j k s dev Hs Hj Hr Ho Hd Hc Hu Ht; [done|].
  apply Forall_cons in Hd as [Hd1 Hd2].
  cbn [fill_effect]. rewrite Hr. cbn [Z.eqb].
  set (s1 := log (EvEnumDeviceInfo k true) (guid_effect k g s)).
  assert (Hs1 : array_ready n s1) by (by apply array_ready_log, array_ready_guid).
  assert (Ht1 : devices_up_to (k + j) (trace s1)).
  { apply Forall_cons. split; [done|]. apply (devices_up_to_guid n); [done | lia | done]. }
  set (s2 := interfaces_effect W k 0 x s1).
  assert (Ht2 : devices_up_to (k + j) (trace s2))
    by (apply devices_up_to_interfaces; [lia | done]).
  destruct j as [|j]; cbn in Hj.
  - injection Hj as ->. rewrite Nat.add_0_r in Hu.
    rewrite fill_effect_stopped; [done|]. by apply hr_interfaces_failure.
  - cbn in Hc. apply andb_true_iff in Hc as [Hc1 Hc2].
    rewrite <- Nat.add_succ_comm in *. apply (IH j (S k) s2 dev); try done.
    + by apply array_ready_interfaces.
    + unfold s2. rewrite hr_interfaces_clean by done. cbn.
      by destruct (guid_effect_frame k g s) as (_ & _ & ->).
Qed.

Lemma devices_up_to_count k devs : ∀ i s,
  devices_up_to k (trace s) → devices_up_to k (trace (count_effect i devs s)).
Proof.
  induction devs as [|x rest IH]; intros i s Hs; cbn [count_effect].
  - apply Forall_cons. by split.
  - apply IH. apply Forall_cons. by split.
Qed.

Lemma devices_up_to_allocated k g devs : devices_up_to k (trace (allocated g devs)).
Proof.
  unfold allocated. cbn [trace]. do 2 (apply Forall_cons; split; [done|]).
  apply devices_up_to_count. apply Forall_cons. split; [done|]. apply Forall_nil_2.
Qed.

End Abort.

(** X4: when a device the fill pass reaches has an interface that is
    not resolved, copied and opened, the function returns FALSE with the
    full count; the slots of the devices before it carry the requested
    class identifier, the slots of the devices after it are still zeroed,
    and no store, query or allocation was made for a device after it. *)
Theorem first_failure_aborts (W : World) (g : GUID) (devs : HDEVINFO) (k j : nat)
    (dev : Device) (itf : DeviceInterface) :
  ClassDevs W g = inr devs → AllocOk W SiteResult = true → errors_nonzero W devs →
  devs !! k = Some dev → reaches W devs k = true →
  dev !! j = Some itf → clean_interface W k j itf = false →
  let r := EnumerateUSBDevices W g in
  fst r = Returned false (length devs) (Ptr 0) ∧
  (∃ slots, returned_devices r = Some slots ∧ length slots = length devs ∧
     (∀ i d, (i ≤ k)%nat → slots !! i = Some d → guidInterface d = g) ∧
     (∀ i d, (k < i)%nat → slots !! i = Some d → d = zero_slot)) ∧
  devices_up_to k (trace (snd r)).
Proof.
  intros Ho Ha [Heo Hed] Hk Hreach Hj Hbad r.
  assert (Hdev : clean_device W k dev = false)
    by (by apply (clean_from_false W k dev 0 j itf)).
  destruct (returned_devices_completed W g devs Ho Ha) as [Hr Hn]. fold r in Hr.
  assert (Hrs : r = (Returned (hr (completed W g devs) =? 0) (length devs) (Ptr 0),
                     completed W g devs))
    by apply (EnumerateUSBDevices_completed W g devs Ho Ha).
  split_and!.
  - rewrite Hrs. cbn [fst]. rewrite (success_iff_clean W g devs (conj Heo Hed)).
    destruct (clean_devices W 0 devs) eqn:Hc; [|done].
    pose proof (clean_devices_lookup W devs 0 k dev Hc Hk) as Hx.
    cbn [Nat.add] in Hx. by rewrite Hx in Hdev.
  - exists (the_slots (completed W g devs)). split_and!; [done | done | |].
    + intros i d Hi Hd.
      assert (Hil : (i < length devs)%nat) by (rewrite <- Hn; by eapply lookup_lt_Some).
      destruct (lookup_lt_is_Some_2 devs i Hil) as [devi Hdevi].
      destruct (slot_at_completed W g devs i devi Hdevi) as (d' & Hd' & _ & Hre).
      unfold slot_at in Hd'. rewrite Hd in Hd'. injection Hd' as <-.
      by destruct (Hre (reaches_earlier W devs k i Hi Hreach)).
    + intros i d Hi Hd.
      assert (Hil : (i < length devs)%nat) by (rewrite <- Hn; by eapply lookup_lt_Some).
      pose proof (slot_beyond_failure W (length devs) g devs k 0%nat (allocated g devs)
                    dev i (array_ready_allocated g devs) Hk eq_refl Heo Hed Hreach Hdev Hi)
        as Hs.
      rewrite (slot_at_allocated g devs i Hil) in Hs.
      change (slot_at (completed W g devs) i) with
        (slot_at (fill_effect W g 0 devs (allocated g devs)) i) in *.
      unfold slot_at in Hs.
      change (the_slots (completed W g devs)) with
        (the_slots (fill_effect W g 0 devs (allocated g devs))) in Hd.
      rewrite Hd in Hs. by injection Hs.
  - rewrite Hrs. cbn [snd]. unfold completed. cbn [trace log].
    apply Forall_cons. split; [done|].
    apply (devices_up_to_failure W (length devs) g devs k 0%nat (allocated g devs) dev);
      try done.
    + apply array_ready_allocated.
    + apply devices_up_to_allocated.
Qed.

Section Overruns.

Variable W : World.

Lemma overruns_body i j itf s o :
  o ∈ overruns (body_effect W i j itf s) →
  o ∈ overruns s ∨ ∃ b, o = OverrunCbSize b ∧ cbRequired itf < sizeof_cbSize.
Proof.
  unfold body_effect.
  destruct (resolution W i j itf); cbn [overruns]; try (by left);
    (destruct (cbRequired itf <? sizeof_cbSize) eqn:Hcb; [|by left]);
    apply Z.ltb_lt in Hcb; intros [->|Ho]%elem_of_cons; try (by left);
    right; by eexists.
Qed.

Lemma overruns_interfaces i ifs o : ∀ j s,
  o ∈ overruns (interfaces_effect W i j ifs s) →
  o ∈ overruns s ∨
  ∃ b itf, itf ∈ ifs ∧ o = OverrunCbSize b ∧ cbRequired itf < sizeof_cbSize.
Proof.
  induction ifs as [|itf rest IH]; intros j s Ho; cbn [interfaces_effect] in Ho;
    [by left|].
  destruct (IH _ _ Ho) as [Ho1|(b & itf' & Hin & -> & Hcb)].
  - destruct (overruns_body _ _ _ _ _ Ho1) as [Ho2|(b & -> & Hcb)]; [by left|].
    right. exists b, itf. split; [by left | done].
  - right. exists b, itf'. split; [by right | done].
Qed.

Lemma overruns_fill n g o : ∀ devs k s,
  array_ready n s → (k + length devs = n)%nat →
  o ∈ overruns (fill_effect W g k devs s) →
  o ∈ overruns s ∨
  (∃ b dev itf, dev ∈ devs ∧ itf ∈ dev ∧ o = OverrunCbSize b ∧
                cbRequired itf < sizeof_cbSize) ∨
  (o = OverrunGuid (result_block s) n g ∧ hr (fill_effect W g k devs s) = 0).
Proof.
  induction devs as [|dev rest IH]; intros k s Hs Hk Ho.
  - cbn [length] in Hk. rewrite Nat.add_0_r in Hk. subst k.
    cbn [fill_effect] in *. destruct (hr s =? 0) eqn:Hr; [|by left].
    apply Z.eqb_eq in Hr.
    destruct (array_ready_block n s Hs) as (slots & Hb & Hn).
    rewrite (guid_effect_outside n g s slots Hb) in * by lia. cbn in Ho |- *.
    apply elem_of_cons in Ho as [->|Ho]; [|by left]. right. right. done.
  - cbn [fill_effect length] in *. destruct (hr s =? 0) eqn:Hr; [|by left].
    set (s1 := log (EvEnumDeviceInfo k true) (guid_effect k g s)) in *.
    assert (Hs1 : array_ready n s1) by (by apply array_ready_log, array_ready_guid).
    set (s2 := interfaces_effect W k 0 dev s1) in *.
    assert (Hb2 : result_block s2 = result_block s).
    { unfold result_block, s2. rewrite pResult_interfaces_effect. cbn.
      by destruct (guid_effect_frame k g s) as (-> & _ & _). }
    assert (Ho1 : overruns s1 = overruns s).
    { destruct (array_ready_block n s Hs) as (slots & Hb & Hn).
      unfold s1. by rewrite (guid_effect_inside k g s slots Hb) by lia. }
    destruct (IH (S k) s2) as [Ho2|[(b & dev' & itf & Hd & Hi & -> & Hcb)|[-> Hz]]];
      [by apply array_ready_interfaces | lia | done | | |].
    + destruct (overruns_interfaces _ _ _ _ _ Ho2) as [Ho3|(b & itf & Hi & -> & Hcb)].
      * left. by rewrite <- Ho1.
      * right. left. exists b, dev, itf. split_and!; try done. by left.
    + right. left. exists b, dev', itf. split_and!; try done. by right.
    + right. right. by rewrite <- Hb2.
Qed.

End Overruns.

(** X5: the only stores that land outside their block are the store
    of the class identifier at index n of the n-slot array, made only
    when the function returns TRUE, and the cbSize field of a detail
    buffer for which the sizing query reported fewer than 4 bytes; a path
    pointer is never stored out of bounds. *)
Theorem overruns_are_known (W : World) (g : GUID) (o : Overrun) :
  o ∈ overruns (snd (EnumerateUSBDevices W g)) →
  (∃ devs b, ClassDevs W g = inr devs ∧
     fst (EnumerateUSBDevices W g) = Returned true (length devs) (Ptr b) ∧
     o = OverrunGuid b (length devs) g) ∨
  (∃ devs dev itf b, ClassDevs W g = inr devs ∧ dev ∈ devs ∧ itf ∈ dev ∧
     cbRequired itf < sizeof_cbSize ∧ o = OverrunCbSize b).
Proof.
  destruct (ClassDevs W g) as [e|devs] eqn:Ho.
  { rewrite (EnumerateUSBDevices_not_opened W g e Ho). cbn. by intros ?%elem_of_nil. }
  destruct (AllocOk W SiteResult) eqn:Ha.
  2: { rewrite (EnumerateUSBDevices_not_allocated W g devs Ho Ha).
       destruct devs; cbn; by intros ?%elem_of_nil. }
  rewrite (EnumerateUSBDevices_completed W g devs Ho Ha). cbn [fst snd].
  unfold completed at 1. cbn [overruns log]. intros Hin.
  destruct (overruns_fill W (length devs) g o devs 0%nat (allocated g devs))
    as [Hx|[(b & dev & itf & Hd & Hi & -> & Hcb)|[-> Hz]]];
    [apply array_ready_allocated | done | done | | |].
  - cbn in Hx. by apply elem_of_nil in Hx.
  - right. by exists devs, dev, itf, b.
  - left. exists devs, 0%nat. split_and!; [done | | done].
    unfold completed. cbn [hr log]. by rewrite Hz.
Qed.

Section Handles.

Variable W : World.

Lemma paired_body i j itf s :
  handles_paired (trace s) = true →
  handles_paired (trace (body_effect W i j itf s)) = true.
Proof. unfold body_effect. by destruct (resolution W i j itf). Qed.

Lemma paired_interfaces i ifs : ∀ j s,
  handles_paired (trace s) = true →
  handles_paired (trace (interfaces_effect W i j ifs s)) = true.
Proof.
  induction ifs as [|itf rest IH]; intros j s Hs; cbn [interfaces_effect]; [done|].
  by apply IH, paired_body.
Qed.

Lemma paired_guid k g s :
  handles_paired (trace s) = true → handles_paired (trace (guid_effect k g s)) = true.
Proof.
  unfold guid_effect. destruct (heap s !! result_block s) as [[]|]; try done.
  by destruct (_ <? _)%nat.
Qed.

Lemma paired_fill g devs : ∀ k s,
  handles_paired (trace s) = true →
  handles_paired (trace (fill_effect W g k devs s)) = true.
Proof.
  induction devs as [|dev rest IH]; intros k s Hs; cbn [fill_effect];
    destruct (hr s =? 0); try done.
  - by apply (paired_guid k g s).
  - apply IH, paired_interfaces. by apply (paired_guid k g s).
Qed.

Lemma paired_count devs : ∀ k s,
  handles_paired (trace s) = true → handles_paired (trace (count_effect k devs s)) = true.
Proof.
  induction devs as [|dev rest IH]; intros k s Hs; cbn [count_effect]; [done|].
  by apply IH.
Qed.

Lemma paired_trace (g : GUID) :
  handles_paired (trace (snd (EnumerateUSBDevices W g))) = true.
Proof.
  destruct (ClassDevs W g) as [e|devs] eqn:Ho.
  { by rewrite (EnumerateUSBDevices_not_opened W g e Ho). }
  pose proof (paired_count devs 0%nat (log (EvGetClassDevs g true) entry) eq_refl) as Hc.
  destruct (AllocOk W SiteResult) eqn:Ha.
  - rewrite (EnumerateUSBDevices_completed W g devs Ho Ha). cbn [snd].
    unfold completed. cbn [trace log handles_paired]. by apply paired_fill.
  - rewrite (EnumerateUSBDevices_not_allocated W g devs Ho Ha).
    assert (handles_paired (trace (not_allocated g devs)) = true) by done.
    by destruct devs.
Qed.

End Handles.

Lemma paired_open_closed (n : nat) : ∀ newer older p,
  (length newer ≤ n)%nat →
  handles_paired (newer ++ EvCreateFile p true :: older) = true →
  ∃ newer', newer = newer' ++ [EvCloseHandle].
Proof.
  induction n as [|n IH]; intros newer older p Hn Hp.
  { destruct newer; [done | cbn in Hn; lia]. }
  destruct newer as [|e newer]; [done|].
  destruct newer as [|e' newer].
  - exists []. destruct e; try done. by destruct ok.
  - cbn [length] in Hn.
    assert (Hcase :
      handles_paired ((e' :: newer) ++ EvCreateFile p true :: older) = true ∨
      (∃ q, e' = EvCreateFile q true ∧
            handles_paired (newer ++ EvCreateFile p true :: older) = true)).
    { destruct e; try (by left); cbn in Hp.
      - destruct ok; [done | by left].
      - destruct e'; try done. destruct ok; [|done]. right. by eexists. }
    destruct Hcase as [Hc|(q & -> & Hc)].
    + destruct (IH (e' :: newer) older p) as [newer' ->]; [cbn; lia | done |].
      by exists (e :: newer').
    + destruct (IH newer older p) as [newer' ->]; [lia | done |].
      by exists (e :: EvCreateFile q true :: newer').
Qed.

Lemma paired_close_opened (n : nat) : ∀ newer older,
  (length newer ≤ n)%nat →
  handles_paired (newer ++ EvCloseHandle :: older) = true →
  ∃ p older', older = EvCreateFile p true :: older'.
Proof.
  induction n as [|n IH]; intros newer older Hn Hp.
  { destruct newer; [|cbn in Hn; lia]. cbn in Hp.
    destruct older as [|[] older']; try done. destruct ok; [by eexists _, _ | done]. }
  destruct newer as [|e newer].
  { cbn in Hp. destruct older as [|[] older']; try done.
    destruct ok; [by eexists _, _ | done]. }
  cbn [length] in Hn.
  assert (Hcase :
    handles_paired (newer ++ EvCloseHandle :: older) = true ∨
    (∃ q newer', newer = EvCreateFile q true :: newer' ∧
                 handles_paired (newer' ++ EvCloseHandle :: older) = true)).
  { destruct e; try (by left); cbn in Hp.
    - destruct ok; [done | by left].
    - destruct newer as [|e' newer']; [done|]. cbn in Hp.
      destruct e'; try done. destruct ok; [|done]. right. by eexists _, _. }
  destruct Hcase as [Hc|(q & newer' & -> & Hc)].
  - apply (IH newer older); [lia | done].
  - apply (IH newer' older); [cbn in Hn; lia | done].
Qed.

(** X6: every handle CreateFile returns is closed by the very next
    call, and CloseHandle is called on nothing but such a handle: no
    handle is left open, none is closed twice. *)
Theorem handles_are_closed (W : World) (g : GUID) :
  let t := trace (snd (EnumerateUSBDevices W g)) in
  (∀ newer older p, t = newer ++ EvCreateFile p true :: older →
     ∃ newer', newer = newer' ++ [EvCloseHandle]) ∧
  (∀ newer older, t = newer ++ EvCloseHandle :: older →
     ∃ p older', older = EvCreateFile p true :: older').
Proof.
  intros t. pose proof (paired_trace W g) as Hp. fold t in Hp. split.
  - intros newer older p Ht. rewrite Ht in Hp.
    by apply (paired_open_closed (length newer) newer older p).
  - intros newer older Ht. rewrite Ht in Hp.
    by apply (paired_close_opened (length newer) newer older).
Qed.

(** ** Path copies that are overwritten *)

Section Leak.

Variable W : World.

Lemma stored_cases i j itf s p :
  stored W i j itf s = Some p →
  p = nullptr ∨
  (p = Ptr (S (length (heap s))) ∧
   (S (length (heap s)) < length (heap (body_effect W i j itf s)))%nat).
Proof.
  unfold stored, body_effect. destruct (resolution W i j itf); intros [= <-];
    (by left) || (right; split; [done|]); cbn [heap];
    rewrite length_app, length_poke; cbn [length]; lia.
Qed.

Lemma heap_length_body i j itf s :
  (length (heap s) ≤ length (heap (body_effect W i j itf s)))%nat.
Proof.
  unfold body_effect. destruct (resolution W i j itf); cbn [heap];
    rewrite ?length_app, ?length_poke; lia.
Qed.

Lemma heap_length_guid k g s : length (heap (guid_effect k g s)) = length (heap s).
Proof.
  unfold guid_effect. destruct (heap s !! result_block s) as [[]|]; try done.
  destruct (_ <? _)%nat; cbn [heap log set_heap add_overrun]; [|done].
  by rewrite length_poke.
Qed.

Lemma paths_body n Q i j itf s :
  array_ready n s → paths_satisfy Q s →
  (∀ p, stored W i j itf s = Some p → Q i p) →
  paths_satisfy Q (body_effect W i j itf s).
Proof.
  intros Hs HQ Hp k d. rewrite (the_slots_body W n) by done.
  destruct (stored W i j itf s) as [p|]; [|by apply HQ].
  destruct (decide (k = i)) as [->|Hne].
  - rewrite list_lookup_alter_eq. destruct (the_slots s !! i); [|done].
    intros [= <-]. by apply Hp.
  - rewrite list_lookup_alter_ne by done. by apply HQ.
Qed.

Lemma paths_guid n Q k g s :
  array_ready n s → paths_satisfy Q s → paths_satisfy Q (guid_effect k g s).
Proof.
  intros Hs HQ k' d. rewrite (the_slots_guid n) by done.
  destruct (decide (k' = k)) as [->|Hne].
  - rewrite list_lookup_alter_eq. destruct (the_slots s !! k) as [d0|] eqn:Hk; [|done].
    intros [= <-]. by apply (HQ k d0).
  - rewrite list_lookup_alter_ne by done. by apply HQ.
Qed.

Lemma paths_weaken (Q Q' : nat → ptr → Prop) s :
  (∀ k p, Q k p → Q' k p) → paths_satisfy Q s → paths_satisfy Q' s.
Proof. intros HQQ HQ k d Hk. by apply HQQ, HQ. Qed.

(** *** The path pointers stay below the end of the heap *)

Lemma bounded_log n e s : bounded n s → bounded n (log e s).
Proof. intros [Hs Hb]. split; [by apply array_ready_log | done]. Qed.

Lemma bounded_body n i j itf s : bounded n s → bounded n (body_effect W i j itf s).
Proof.
  intros [Hs Hb]. split; [by apply array_ready_body|].
  apply (paths_body n); [done | |].
  - eapply paths_weaken; [|done]. intros k p Hp q ->.
    pose proof (heap_length_body i j itf s). specialize (Hp q eq_refl). lia.
  - intros p Hp q ->. apply stored_cases in Hp as [|[[= ->] Hlt]]; [done | lia].
Qed.

Lemma bounded_interfaces n i ifs : ∀ j s,
  bounded n s → bounded n (interfaces_effect W i j ifs s).
Proof.
  induction ifs as [|itf rest IH]; intros j s Hs; cbn [interfaces_effect].
  - done.
  - by apply IH, bounded_body, bounded_log.
Qed.

Lemma bounded_guid n k g s : bounded n s → bounded n (guid_effect k g s).
Proof.
  intros [Hs Hb]. split; [by apply array_ready_guid|].
  rewrite heap_length_guid. by apply (paths_guid n).
Qed.

Lemma interfaces_effect_cut n i ifs : ∀ k j s itf,
  bounded n s → ifs !! k = Some itf →
  ∃ s0, bounded n s0 ∧
    interfaces_effect W i j ifs s
    = interfaces_effect W i (S (j + k)) (drop (S k) ifs) (body_effect W i (j + k) itf s0).
Proof.
  induction ifs as [|x rest IH]; intros k j s itf Hs Hk; [done|].
  destruct k as [|k]; cbn in Hk.
  - injection Hk as ->. exists (log (EvEnumDeviceInterfaces i j true) s).
    rewrite Nat.add_0_r. split; [by apply bounded_log | done].
  - destruct (IH k (S j) (body_effect W i j x (log (EvEnumDeviceInterfaces i j true) s)) itf)
      as (s0 & Hs0 & Heq); [by apply bounded_body, bounded_log | done |].
    exists s0. split; [done|]. cbn [interfaces_effect drop].
    rewrite Heq. by rewrite <- Nat.add_succ_comm.
Qed.

Lemma fill_effect_cut n g devs : ∀ i k s dev,
  bounded n s → devs !! i = Some dev →
  hr s = 0 → clean_devices W k (take i devs) = true →
  ∃ s0, bounded n s0 ∧
    fill_effect W g k devs s
    = fill_effect W g (S (k + i)) (drop (S i) devs) (interfaces_effect W (k + i) 0 dev s0).
Proof.
  induction devs as [|x rest IH]; intros i k s dev Hs Hi Hr Hc; [done|].
  destruct i as [|i]; cbn in Hi.
  - injection Hi as ->. exists (log (EvEnumDeviceInfo k true) (guid_effect k g s)).
    rewrite Nat.add_0_r. split; [by apply bounded_log, bounded_guid|].
    cbn [fill_effect drop]. by rewrite Hr.
  - cbn in Hc. apply andb_true_iff in Hc as [Hc1 Hc2].
    set (s2 := interfaces_effect W k 0 x (log (EvEnumDeviceInfo k true) (guid_effect k g s))).
    destruct (IH i (S k) s2 dev) as (s0 & Hs0 & Heq); [| done | | done |].
    { by apply bounded_interfaces, bounded_log, bounded_guid. }
    { unfold s2. rewrite hr_interfaces_clean by done. cbn.
      by destruct (guid_effect_frame k g s) as (_ & _ & ->). }
    exists s0. split; [done|]. cbn [fill_effect drop]. rewrite Hr.
    cbn [Z.eqb]. fold s2. rewrite Heq. by rewrite <- Nat.add_succ_comm.
Qed.

(** *** A block no later store designates *)

Section Kept.

Variable n q : nat.
Variable Q : nat → ptr → Prop.
Hypothesis fresh : ∀ k p, p ≠ Ptr q → Q k p.

Lemma kept_log e s : kept n q Q s → kept n q Q (log e s).
Proof. intros (Hq & Hs & HQ). split_and!; [done | by apply array_ready_log | done]. Qed.

Lemma kept_body i j itf s : kept n q Q s → kept n q Q (body_effect W i j itf s).
Proof.
  intros (Hq & Hs & HQ). split_and!.
  - pose proof (heap_length_body i j itf s). lia.
  - by apply array_ready_body.
  - apply (paths_body n); [done | done |]. intros p Hp. apply fresh.
    apply stored_cases in Hp as [->|[-> _]]; [done|]. intros [= <-]. lia.
Qed.

Lemma kept_interfaces i ifs : ∀ j s, kept n q Q s → kept n q Q (interfaces_effect W i j ifs s).
Proof.
  induction ifs as [|itf rest IH]; intros j s Hs; cbn [interfaces_effect].
  - done.
  - by apply IH, kept_body, kept_log.
Qed.

Lemma kept_guid k g s : kept n q Q s → kept n q Q (guid_effect k g s).
Proof.
  intros (Hq & Hs & HQ). split_and!.
  - by rewrite heap_length_guid.
  - by apply array_ready_guid.
  - by apply (paths_guid n).
Qed.

Lemma kept_fill g devs : ∀ k s, kept n q Q s → kept n q Q (fill_effect W g k devs s).
Proof.
  induction devs as [|dev rest IH]; intros k s Hs; cbn [fill_effect];
    destruct (hr s =? 0); try done.
  - by apply (kept_guid k g s).
  - apply IH, kept_interfaces, kept_log. by apply kept_guid.
Qed.

End Kept.

Lemma overwritten_body n q i j itf s :
  is_Some (stored W i j itf s) →
  kept n q (only_at q i) s → kept n q (not_at q) (body_effect W i j itf s).
Proof.
  intros [p Hp] (Hq & Hs & HQ). split_and!.
  - pose proof (heap_length_body i j itf s). lia.
  - by apply array_ready_body.
  - intros k d. rewrite (the_slots_body W n) by done. rewrite Hp.
    destruct (decide (k = i)) as [->|Hne].
    + rewrite list_lookup_alter_eq. destruct (the_slots s !! i); [|done].
      intros [= <-]. cbn. apply stored_cases in Hp as [->|[-> _]]; [done|].
      intros [= <-]. lia.
    + rewrite list_lookup_alter_ne by done. intros Hk Hd. by apply Hne, (HQ k d).
Qed.

Lemma overwritten_interfaces n q i ifs : ∀ k j s itf,
  ifs !! k = Some itf → (∀ s', is_Some (stored W i (j + k) itf s')) →
  kept n q (only_at q i) s → kept n q (not_at q) (interfaces_effect W i j ifs s).
Proof.
  induction ifs as [|x rest IH]; intros k j s itf Hk Hst Hs; [done|].
  cbn [interfaces_effect]. destruct k as [|k]; cbn in Hk.
  - injection Hk as ->. rewrite Nat.add_0_r in Hst.
    apply kept_interfaces; [by intros ? ? ?|].
    apply overwritten_body; [done|]. by apply kept_log.
  - apply (IH k (S j) _ itf); [done | |].
    + intros s'. by rewrite Nat.add_succ_comm.
    + apply kept_body; [by intros ? ? ? ?|]. by apply kept_log.
Qed.

Lemma stored_resolved i j itf path s :
  AllocOk W (SiteDetail i j) = true → detail itf = inr path →
  is_Some (stored W i j itf s).
Proof.
  intros Ha Hd. unfold stored, resolution. rewrite Ha, Hd.
  destruct (AllocOk W (SitePath i j)); [|done]. by destruct (OpenPath W path).
Qed.

Lemma alloc_in_trace i j itf s path :
  (resolution W i j itf = Opened path ∨ ∃ e, resolution W i j itf = OpenFailed path e) →
  EvAlloc (SitePath i j) ((Z.of_nat (length path) + 1) * 2) (Ptr (S (length (heap s))))
    ∈ trace (body_effect W i j itf s).
Proof.
  intros Hr. unfold body_effect. destruct Hr as [->|[e ->]]; cbn [trace];
    repeat (apply elem_of_cons; (by left) || right).
Qed.

Lemma copied_only_at n i j itf s path :
  (resolution W i j itf = Opened path ∨ ∃ e, resolution W i j itf = OpenFailed path e) →
  bounded n s →
  kept n (S (length (heap s))) (only_at (S (length (heap s))) i) (body_effect W i j itf s).
Proof.
  intros Hr [Hs Hb].
  assert (Hst : stored W i j itf s = Some (Ptr (S (length (heap s))))).
  { unfold stored. by destruct Hr as [->|[e ->]]. }
  split_and!.
  - by apply stored_cases in Hst as [|[_ ?]].
  - by apply array_ready_body.
  - intros k d. rewrite (the_slots_body W n) by done. rewrite Hst.
    destruct (decide (k = i)) as [->|Hne]; [done|].
    rewrite list_lookup_alter_ne by done. intros Hk Hd.
    specialize (Hb k d Hk _ Hd). lia.
Qed.

End Leak.

(** X7: when a device the fill pass reaches has an interface whose path
    is copied and a later interface that is resolved, the earlier copy
    is still allocated when the function returns, and no element of the
    returned array designates it: the copy is lost. *)
Theorem overwritten_copy_is_lost (W : World) (g : GUID) (devs : HDEVINFO) (i : nat)
    (dev : Device) (j j' : nat) (itf itf' : DeviceInterface) (path path' : wstring) :
  ClassDevs W g = inr devs → AllocOk W SiteResult = true →
  devs !! i = Some dev → reaches W devs i = true →
  dev !! j = Some itf → AllocOk W (SiteDetail i j) = true →
  detail itf = inr path → AllocOk W (SitePath i j) = true →
  (j < j')%nat → dev !! j' = Some itf' → AllocOk W (SiteDetail i j') = true →
  detail itf' = inr path' →
  let r := EnumerateUSBDevices W g in
  ∃ q slots,
    EvAlloc (SitePath i j) ((Z.of_nat (length path) + 1) * 2) (Ptr q) ∈ trace (snd r) ∧
    heap (snd r) !! q = Some (BString path) ∧
    returned_devices r = Some slots ∧ length slots = length devs ∧
    Forall (λ d, wszInterfacePath d ≠ Ptr q) slots.
Proof.
  intros Ho Ha Hi Hreach Hj Hdj Hpj Hcj Hlt Hj' Hdj' Hpj' r.
  destruct (returned_devices_completed W g devs Ho Ha) as [Hret Hlen].
  assert (Hb0 : bounded (length devs) (allocated g devs)).
  { split; [apply array_ready_allocated|]. intros k d Hk q Hd.
    unfold the_slots, allocated in Hk. cbn in Hk.
    apply lookup_replicate in Hk as [-> _]. done. }
  destruct (fill_effect_cut W (length devs) g devs i 0%nat (allocated g devs) dev)
    as (s1 & Hs1 & Hfill); [done | done | done | done |].
  cbn [Nat.add] in Hfill.
  destruct (interfaces_effect_cut W (length devs) i dev j 0%nat s1 itf)
    as (s2 & Hs2 & Hifs); [done | done |].
  cbn [Nat.add] in Hifs.
  pose proof (resolution_copied W i j itf path Hdj Hpj Hcj) as Hres.
  set (q := S (length (heap s2))).
  set (s3 := body_effect W i j itf s2) in *.
  pose proof (copied_only_at W (length devs) i j itf s2 path Hres Hs2) as Hk3.
  fold q s3 in Hk3.
  assert (Hstr3 : string_at s3 (Ptr q) = Some path) by by apply string_at_stored.
  assert (Htr3 : EvAlloc (SitePath i j) ((Z.of_nat (length path) + 1) * 2) (Ptr q)
                   ∈ trace s3) by by apply alloc_in_trace.
  set (s4 := interfaces_effect W i (S j) (drop (S j) dev) s3) in *.
  assert (Hk4 : kept (length devs) q (not_at q) s4).
  { apply (overwritten_interfaces W (length devs) q i _ (j' - S j) (S j) s3 itf').
    - rewrite lookup_drop. by replace (S j + (j' - S j))%nat with j' by lia.
    - intros s'. replace (S j + (j' - S j))%nat with j' by lia.
      by apply (stored_resolved W i j' itf' path').
    - done. }
  set (s5 := fill_effect W g (S i) (drop (S i) devs) s4) in *.
  assert (Hk5 : kept (length devs) q (not_at q) s5).
  { apply kept_fill; [by intros ? ? ?|done]. }
  assert (Hfinal : snd r = log EvDestroy s5).
  { unfold r. rewrite (EnumerateUSBDevices_completed W g devs Ho Ha). cbn [snd].
    unfold completed. by rewrite Hfill, Hifs. }
  assert (Hslots : the_slots (completed W g devs) = the_slots s5).
  { unfold completed. by rewrite Hfill, Hifs. }
  exists q, (the_slots s5). split_and!.
  - rewrite Hfinal. cbn [trace log]. apply elem_of_cons. right.
    eapply elem_of_trace_suffix; [apply suffix_fill|].
    eapply elem_of_trace_suffix; [apply suffix_interfaces|]. done.
  - rewrite Hfinal. cbn [heap log].
    assert (Hstr5 : string_at s5 (Ptr q) = Some path).
    { by apply string_at_fill, string_at_interfaces. }
    unfold string_at in Hstr5. destruct (heap s5 !! q) as [blk|]; [|done].
    destruct blk; try done. by injection Hstr5 as ->.
  - unfold r. by rewrite Hret, Hslots.
  - by rewrite <- Hslots.
  - apply Forall_lookup. intros k d Hk. destruct Hk5 as (_ & _ & HQ). by apply (HQ k d).
Qed.

(** ** The helpers *)

Lemma lor_disjoint (a c n : Z) :
  0 ≤ n → 0 ≤ a < 2 ^ n → Z.lor a (Z.shiftl c n) = a + Z.shiftl c n.
Proof.
  intros Hn Ha.
  assert (Hl : Z.land a (Z.shiftl c n) = 0).
  { apply Z.bits_inj'. intros k Hk. rewrite Z.land_spec, Z.bits_0.
    destruct (Z.lt_ge_cases k n) as [Hlt|Hge].
    - rewrite Z.shiftl_spec_low by done. apply andb_false_r.
    - rewrite <- (Z.mod_small a (2 ^ n)) by done.
      by rewrite Z.mod_pow2_bits_high by lia. }
  rewrite <- Z.lxor_lor by done. by rewrite Z.add_nocarry_lxor.
Qed.

Lemma HRESULT_FROM_WIN32_failure (x : Z) :
  0 < to_int32 x → HRESULT_FROM_WIN32 x = x mod 2 ^ 16 - 2147024896.
Proof.
  intros Hx. unfold HRESULT_FROM_WIN32.
  destruct (to_int32 x <=? 0) eqn:E; [apply Z.leb_le in E; lia|].
  change 65535 with (Z.ones 16). rewrite Z.land_ones by done.
  pose proof (Z.mod_pos_bound x (2 ^ 16) eq_refl) as Hb.
  unfold FACILITY_WIN32. rewrite lor_disjoint by lia.
  change 2147483648 with (Z.shiftl 1 31). change (Z.shiftl 7 16) with 458752.
  rewrite lor_disjoint by lia. change (Z.shiftl 1 31) with 2147483648.
  unfold to_int32. rewrite Z.mod_small by lia.
  destruct (_ <? _) eqn:E2; [apply Z.ltb_lt in E2; lia | lia].
Qed.

Lemma HRESULT_FROM_WIN32_le (x : Z) : HRESULT_FROM_WIN32 x ≤ 0.
Proof.
  destruct (Z.lt_ge_cases 0 (to_int32 x)) as [Hpos|Hneg].
  - rewrite (HRESULT_FROM_WIN32_failure _ Hpos).
    pose proof (Z.mod_pos_bound x (2 ^ 16) eq_refl). lia.
  - unfold HRESULT_FROM_WIN32. pose proof Hneg as Hle. apply Z.leb_le in Hle.
    by rewrite Hle.
Qed.

(** X8: HError leaves the state alone and never returns a success code
    other than S_OK; it returns S_OK exactly when the last error is
    zero, and for an error code below 2^31 the failure HRESULT of
    facility 7 that carries the low 16 bits of the code. *)
Theorem HError_is_a_failure_code (s : State) :
  ∃ h, HError s = Ok h s ∧ h ≤ 0 ∧
       (h = 0 ↔ lastError s mod 2 ^ 32 = 0) ∧
       (0 < to_int32 (lastError s) → h = lastError s mod 2 ^ 16 - 2147024896).
Proof.
  exists (HRESULT_FROM_WIN32 (lastError s)). split_and!.
  - done.
  - apply HRESULT_FROM_WIN32_le.
  - destruct (Z.lt_ge_cases 0 (to_int32 (lastError s))) as [Hpos|Hneg].
    + rewrite (HRESULT_FROM_WIN32_failure _ Hpos).
      pose proof (Z.mod_pos_bound (lastError s) (2 ^ 16) eq_refl).
      rewrite <- to_int32_zero. lia.
    + unfold HRESULT_FROM_WIN32. apply Z.leb_le in Hneg. rewrite Hneg.
      apply to_int32_zero.
  - apply HRESULT_FROM_WIN32_failure.
Qed.

(** X9: AllocCopyString asks the allocator once, for the bytes of the
    string and its terminator, and touches no block that exists.  When
    the allocator answers, the pointer returned designates a new block
    that holds the string; when it does not, the null pointer is returned
    and the heap is as before. *)
Theorem AllocCopyString_copies (W : World) (site : AllocSite) (wsz : wstring) (s : State) :
  ∃ p s', AllocCopyString W site wsz s = Ok p s' ∧
    trace s' = EvAlloc site ((Z.of_nat (length wsz) + 1) * 2) p :: trace s ∧
    (∀ q b, heap s !! q = Some b → heap s' !! q = Some b) ∧
    (AllocOk W site = true →
       p = Ptr (length (heap s)) ∧ string_at s' p = Some wsz ∧
       length (heap s') = S (length (heap s))) ∧
    (AllocOk W site = false → p = nullptr ∧ heap s' = heap s).
Proof.
  unfold AllocCopyString, CoTaskMemAlloc. unfold_M.
  destruct (AllocOk W site).
  - eexists _, _. split; [done|]. cbn [trace heap log set_heap]. split_and!.
    + done.
    + intros q b Hq. rewrite snoc_insert. by apply lookup_app_l_Some.
    + intros _. split_and!; [done | |].
      * unfold string_at. cbn [heap log set_heap]. rewrite snoc_insert.
        by rewrite lookup_snoc.
      * rewrite snoc_insert, length_app. cbn. lia.
    + done.
  - eexists _, _. split; [done|]. cbn [trace heap log]. split_and!; try done.
Qed.

(** X10: a pointer GetDeviceInstanceId returns designates a block
    allocated by the call, which the filling query wrote.  When it
    returns the null pointer, the block it allocated, if any, is freed
    again.  When a query faults, the block stays allocated: nothing
    frees it. *)
Theorem GetDeviceInstanceId_owns (W : World) (answers : IdScript) (site : AllocSite)
    (s : State) :
  match GetDeviceInstanceId W answers site s with
  | Ok (Ptr q) s' =>
      q = length (heap s) ∧ AllocOk W site = true ∧
      ∃ id cb, heap s' = heap s ++ [BString id] ∧
               trace s' = EvAlloc site cb (Ptr q) :: trace s
  | Ok nullptr s' =>
      ∃ cb, (heap s' = heap s ∧
             trace s' = EvFree nullptr :: EvAlloc site cb nullptr :: trace s) ∨
            (heap s' = heap s ++ [BFreed] ∧
             trace s' = EvFree (Ptr (length (heap s)))
                          :: EvAlloc site cb (Ptr (length (heap s))) :: trace s)
  | Raise s' =>
      heap s' = heap s ∨ ∃ cb, AllocOk W site = true ∧ heap s' = heap s ++ [BRaw cb]
  | Stuck => False
  end.
Proof.
  unfold GetDeviceInstanceId, SetupDiGetDeviceInstanceIdW, CoTaskMemAlloc. unfold_M.
  destruct (answers nullptr 0) as [e required|id0 required|]; [| by left | by left].
  cbn [snd]. set (cb := default 0 required). clearbody cb.
  destruct (AllocOk W site) eqn:Ha.
  - destruct (answers (Ptr _) cb) as [e' required'|id' required'|].
    + cbn [fst CoTaskMemFree]. unfold_M. exists cb. right.
      cbn [heap trace log set_heap set_lastError]. by rewrite snoc_insert.
    + cbn [heap log set_heap set_lastError]. rewrite lookup_snoc. cbn [fst].
      split_and!; [done | done |]. exists id', cb.
      cbn [heap trace log set_heap set_lastError]. by rewrite snoc_insert.
    + right. exists cb. done.
  - destruct (answers nullptr cb) as [e' required'|id' required'|].
    + cbn [fst CoTaskMemFree]. unfold_M. exists cb. left. done.
    + by left.
    + by left.
Qed.

(** X11: when SetupDiGetDeviceInstanceIdW counts in characters, as it
    is documented to, the block GetDeviceInstanceId returns is asked
    from the allocator with one byte for each character of the
    identifier and its terminator: half the bytes AllocCopyString asks
    for the same string. *)
Theorem GetDeviceInstanceId_half_size (W : World) (site : AllocSite) (id : wstring)
    (s : State) :
  AllocOk W site = true →
  let n := Z.of_nat (length id) + 1 in
  let p := Ptr (length (heap s)) in
  ∃ s1 s2,
    GetDeviceInstanceId W (id_script id) site s = Ok p s1 ∧
    trace s1 = EvAlloc site n p :: trace s ∧
    string_at s1 p = Some id ∧
    AllocCopyString W site id s = Ok p s2 ∧
    trace s2 = EvAlloc site (n * 2) p :: trace s ∧
    string_at s2 p = Some id.
Proof.
  intros Ha n p.
  assert (Hn : 0 < n) by (unfold n; lia).
  unfold GetDeviceInstanceId, AllocCopyString, SetupDiGetDeviceInstanceIdW, CoTaskMemAlloc.
  unfold_M. unfold id_script. fold n. rewrite Ha.
  destruct (0 <? n) eqn:E0; [|apply Z.ltb_ge in E0; lia].
  cbn [snd default from_option Datatypes.id]. rewrite Z.ltb_irrefl.
  assert (Hl : (heap s ++ [BRaw n]) !! length (heap s) = Some (BRaw n))
    by apply lookup_snoc.
  eexists _, _. cbn [heap log set_heap set_lastError]. rewrite Hl. cbn [fst].
  split_and!; try done.
  - unfold string_at, p. cbn [heap log set_heap set_lastError].
    by rewrite snoc_insert, lookup_snoc.
  - unfold string_at, p. cbn [heap log set_heap set_lastError].
    by rewrite snoc_insert, lookup_snoc.
Qed.

(** ** The further properties on sample worlds *)

Lemma world_pair_errors_nonzero :
  errors_nonzero world_pair [[one_interface path_a]; [one_interface path_b]].
Proof.
  split.
  - intros path e. discriminate.
  - repeat constructor; intros e; discriminate.
Defined.

Lemma world_locked_errors_nonzero : errors_nonzero world_locked [[one_interface path_a]].
Proof.
  split.
  - intros path e [= <-]. done.
  - repeat constructor; intros e; discriminate.
Defined.

Lemma success_exactly_when_all_open_witness :
  ∃ ok, fst (EnumerateUSBDevices world_pair 1) = Returned ok 2 (Ptr 0) ∧
    (ok = true ↔
     ∀ i dev j itf,
       [[one_interface path_a]; [one_interface path_b]] !! i = Some dev →
       dev !! j = Some itf →
       ∃ path, AllocOk world_pair (SiteDetail i j) = true ∧ detail itf = inr path ∧
               AllocOk world_pair (SitePath i j) = true ∧ OpenPath world_pair path = None).
Proof.
  apply (success_exactly_when_all_open world_pair 1
           [[one_interface path_a]; [one_interface path_b]]);
    [reflexivity | reflexivity | apply world_pair_errors_nonzero].
Defined.

Lemma count_matches_array_witness :
  (∃ slots, returned_devices (EnumerateUSBDevices world_pair 1) = Some slots ∧
            length slots = 2%nat) ∧
  (Ptr 0 = nullptr → 2%nat = 0%nat) ∧
  (∀ devs, ClassDevs world_pair 1 = inr devs → Ptr 0 ≠ nullptr → 2%nat = length devs).
Proof.
  apply (count_matches_array world_pair 1 true 2 (Ptr 0)). reflexivity.
Defined.

Lemma returned_paths_are_copies_witness :
  let d := {| guidInterface := 1; wszInterfacePath := Ptr 4 |} in
  (guidInterface d = 1 ∨ guidInterface d = GUID_NULL) ∧
  (wszInterfacePath d = nullptr ∨
   ∃ dev j itf path,
     devs_two_one !! 0%nat = Some dev ∧ dev !! j = Some itf ∧ detail itf = inr path ∧
     string_at (snd (EnumerateUSBDevices world_two_one 1)) (wszInterfacePath d)
     = Some path).
Proof.
  apply (returned_paths_are_copies world_two_one 1 devs_two_one
           [{| guidInterface := 1; wszInterfacePath := Ptr 4 |};
            {| guidInterface := 1; wszInterfacePath := Ptr 6 |}] 0);
    reflexivity.
Defined.

Lemma first_failure_aborts_witness :
  let r := EnumerateUSBDevices world_locked 1 in
  fst r = Returned false 1 (Ptr 0) ∧
  (∃ slots, returned_devices r = Some slots ∧ length slots = 1%nat ∧
     (∀ i d, (i ≤ 0)%nat → slots !! i = Some d → guidInterface d = 1) ∧
     (∀ i d, (0 < i)%nat → slots !! i = Some d → d = zero_slot)) ∧
  devices_up_to 0 (trace (snd r)).
Proof.
  apply (first_failure_aborts world_locked 1 [[one_interface path_a]] 0 0
           [one_interface path_a] (one_interface path_a));
    try reflexivity.
  apply world_locked_errors_nonzero.
Defined.

Lemma overruns_are_known_witness :
  (∃ devs b, ClassDevs world_pair 1 = inr devs ∧
     fst (EnumerateUSBDevices world_pair 1) = Returned true (length devs) (Ptr b) ∧
     OverrunGuid 0 2 1 = OverrunGuid b (length devs) 1) ∨
  (∃ devs dev itf b, ClassDevs world_pair 1 = inr devs ∧ dev ∈ devs ∧ itf ∈ dev ∧
     cbRequired itf < sizeof_cbSize ∧ OverrunGuid 0 2 1 = OverrunCbSize b).
Proof.
  apply (overruns_are_known world_pair 1 (OverrunGuid 0 2 1)).
  vm_compute. constructor.
Defined.

Lemma overwritten_copy_is_lost_witness :
  let r := EnumerateUSBDevices world_two_one 1 in
  ∃ q slots,
    EvAlloc (SitePath 0 0) ((Z.of_nat (length path_a) + 1) * 2) (Ptr q) ∈ trace (snd r) ∧
    heap (snd r) !! q = Some (BString path_a) ∧
    returned_devices r = Some slots ∧ length slots = 2%nat ∧
    Forall (λ d, wszInterfacePath d ≠ Ptr q) slots.
Proof.
  apply (overwritten_copy_is_lost world_two_one 1 devs_two_one 0
           [one_interface path_a; one_interface path_b] 0 1
           (one_interface path_a) (one_interface path_b) path_a path_b);
    try reflexivity.
  lia.
Defined.

Lemma GetDeviceInstanceId_half_size_witness :
  ∃ s1 s2,
    GetDeviceInstanceId world_pair (id_script path_a) (SitePath 0 0) entry
    = Ok (Ptr 0) s1 ∧
    trace s1 = [EvAlloc (SitePath 0 0) 3 (Ptr 0)] ∧
    string_at s1 (Ptr 0) = Some path_a ∧
    AllocCopyString world_pair (SitePath 0 0) path_a entry = Ok (Ptr 0) s2 ∧
    trace s2 = [EvAlloc (SitePath 0 0) 6 (Ptr 0)] ∧
    string_at s2 (Ptr 0) = Some path_a.
Proof.
  apply (GetDeviceInstanceId_half_size world_pair (SitePath 0 0) path_a entry).
  reflexivity.
Defined.

(** The leak is real on the sample world: block 2 holds the copy of
    the first path of device 0 and no element of the array designates it. *)
Example world_two_one_leak :
  let r := EnumerateUSBDevices world_two_one 1 in
  heap (snd r) !! 2%nat = Some (BString path_a) ∧
  returned_devices r
  = Some [{| guidInterface := 1; wszInterfacePath := Ptr 4 |};
          {| guidInterface := 1; wszInterfacePath := Ptr 6 |}].
Proof. vm_compute. done. Qed.

(** Handles are opened on the sample world, and closed at once. *)
Example world_pair_handles :
  ∃ newer older,
    trace (snd (EnumerateUSBDevices world_pair 1))
    = newer ++ EvCloseHandle :: EvCreateFile (Ptr 4) true :: older.
Proof. eexists [_; _; _; _; _], _. vm_compute. reflexivity. Qed.
